(** * HerePy: the routing client ([herepy/routing_api.py])

    A shallow embedding of the route summarizers, the error classifier,
    the route request guard, the matrix request bodies and the matrix job
    poll loop of [RoutingApi], with the properties the specification
    states about them. *)

From Stdlib Require Import String Ascii List ZArith Bool Lia PrimFloat.
Import ListNotations.

#[local] Set Warnings "-register-all".

Local Open Scope list_scope.
Local Open Scope string_scope.

(* ================================================================= *)
(** ** Python strings *)

Module PyStr.

(** [strip_prefix p s] is [Some rest] when [s = p ++ rest]. *)
Fixpoint strip_prefix (p s : string) : option string :=
  match p, s with
  | EmptyString, _ => Some s
  | String a p', String b s' =>
      if Ascii.eqb a b then strip_prefix p' s' else None
  | String _ _, EmptyString => None
  end.

(** [str.partition]: the text before and after the leftmost occurrence of
    [sep], or [None] when [sep] does not occur. *)
Fixpoint partition (sep s : string) {struct s} : option (string * string) :=
  match strip_prefix sep s with
  | Some rest => Some (EmptyString, rest)
  | None =>
      match s with
      | EmptyString => None
      | String c s' =>
          match partition sep s' with
          | Some (b, a) => Some (String c b, a)
          | None => None
          end
      end
  end.

(** [str.split(sep)] for a non-empty [sep]: cut at the non-overlapping
    occurrences of [sep], leftmost first.  The text after an occurrence is
    shorter than the text it was found in, so [length s] cuts suffice. *)
Fixpoint split_fuel (n : nat) (sep s : string) : list string :=
  match n with
  | O => [s]
  | S n' =>
      match partition sep s with
      | None => [s]
      | Some (b, a) => b :: split_fuel n' sep a
      end
  end.

Definition split (sep s : string) : list string :=
  split_fuel (S (String.length s)) sep s.

(** [sep.join(parts)]. *)
Fixpoint join (sep : string) (parts : list string) : string :=
  match parts with
  | [] => EmptyString
  | [p] => p
  | p :: rest => p ++ sep ++ join sep rest
  end.

(** [s.replace(old, new)] for a non-empty [old]. *)
Definition replace (old new s : string) : string :=
  join new (split old s).

(** [sep] occurs in [s]. *)
Definition occurs (sep s : string) : Prop :=
  exists a b, s = a ++ sep ++ b.

Definition contains (sep s : string) : bool :=
  match partition sep s with Some _ => true | None => false end.

End PyStr.

(* ================================================================= *)
(** ** Python values, exceptions and results *)

(** A value decoded by [json.loads], or built by the client before
    [requests] serialises it.  A [dict] keeps its items in insertion
    order. *)
Inductive json : Type :=
| JNull
| JBool (b : bool)
| JInt (z : Z)
| JFloat (f : float)
| JStr (s : string)
| JArr (items : list json)
| JObj (fields : list (string * json)).

(** The exception classes of [herepy]: [HEREError] and the subclasses
    [routing_api.py] declares. *)
Inductive here_class : Type :=
| HEREError
| InvalidCredentialsError
| InvalidInputDataError
| WaypointNotFoundError
| NoRouteFoundError
| LinkIdNotFoundError
| RouteNotReconstructedError.

Inductive exn : Type :=
| KeyError (key : string)
| IndexError
| TypeError
| AttributeError
| ValueError
| HTTPError
| Here (cls : here_class) (message : json).

(** The result of a Python expression: a value or a raised exception. *)
Inductive exc (A : Type) : Type :=
| Ok (a : A)
| Raise (e : exn).
Arguments Ok {A} a.
Arguments Raise {A} e.

Definition ebind {A B} (c : exc A) (k : A -> exc B) : exc B :=
  match c with
  | Ok a => k a
  | Raise e => Raise e
  end.

Declare Scope exc_scope.
Delimit Scope exc_scope with exc.
Notation "x <- c ;; k" := (ebind c (fun x => k))
  (at level 61, c at next level, right associativity) : exc_scope.

(** [try: body / except IndexError: handler]. *)
Definition except_IndexError {A} (body : exc A) (handler : exc A) : exc A :=
  match body with
  | Raise IndexError => handler
  | r => r
  end.

(** [d.get(k)] on a dict's items. *)
Fixpoint assoc (k : string) (fields : list (string * json)) : option json :=
  match fields with
  | [] => None
  | (k', v) :: rest => if String.eqb k k' then Some v else assoc k rest
  end.

(** [k in d]. *)
Definition has_key (k : string) (fields : list (string * json)) : bool :=
  match assoc k fields with Some _ => true | None => false end.

(** [d[k] = v] on a dict's items: an existing key keeps its place. *)
Fixpoint setitem (k : string) (v : json) (fields : list (string * json))
  : list (string * json) :=
  match fields with
  | [] => [(k, v)]
  | (k', v') :: rest =>
      if String.eqb k k' then (k, v) :: rest else (k', v') :: setitem k v rest
  end.

(** [v[k]] for a string [k]. *)
Definition getitem (v : json) (k : string) : exc json :=
  match v with
  | JObj fields =>
      match assoc k fields with
      | Some x => Ok x
      | None => Raise (KeyError k)
      end
  | _ => Raise TypeError
  end.

(** [xs[i]] on a Python list. *)
Definition index {A} (xs : list A) (i : nat) : exc A :=
  match nth_error xs i with
  | Some x => Ok x
  | None => Raise IndexError
  end.

(** [v[i]] for an integer [i >= 0]; a string yields its [i]-th character. *)
Definition getindex (v : json) (i : nat) : exc json :=
  match v with
  | JArr items => index items i
  | JStr s =>
      match String.get i s with
      | Some c => Ok (JStr (String c EmptyString))
      | None => Raise IndexError
      end
  | JObj _ => Raise (KeyError EmptyString)
  | _ => Raise TypeError
  end.

(** The receiver of a [str] method; other decoded values have no such
    attribute. *)
Definition as_str_receiver (v : json) : exc string :=
  match v with
  | JStr s => Ok s
  | _ => Raise AttributeError
  end.

(** An operand of [+] whose other operand is a [str]. *)
Definition as_str_operand (v : json) : exc string :=
  match v with
  | JStr s => Ok s
  | _ => Raise TypeError
  end.

(** [v == s] for a string literal [s]. *)
Definition eq_str (v : json) (s : string) : bool :=
  match v with
  | JStr t => String.eqb t s
  | _ => false
  end.

(** Python truth value. *)
Definition truthy (v : json) : bool :=
  match v with
  | JNull => false
  | JBool b => b
  | JInt z => negb (Z.eqb z 0)
  | JFloat f => negb (PrimFloat.eqb f 0%float)
  | JStr s => negb (String.eqb s EmptyString)
  | JArr items => match items with [] => false | _ :: _ => true end
  | JObj fields => match fields with [] => false | _ :: _ => true end
  end.

(* ================================================================= *)
(** ** The route summarizers *)

Section Summarizers.
Local Open Scope exc_scope.

(** The double-quote character, and the two opening tags the summarizers
    look for: a span of class number and a span of class next-street. *)
Definition dquote : string :=
  String (Ascii false true false false false true false false) EmptyString.

Definition number_open : string :=
  "<span class=" ++ dquote ++ "number" ++ dquote ++ ">".

Definition street_open : string :=
  "<span class=" ++ dquote ++ "next-street" ++ dquote ++ ">".

Definition span_close : string := "</span>".

(** The two chained [replace] calls that delete the opening and then the
    closing parenthesis. *)
Definition strip_parens (x : string) : string :=
  PyStr.replace ")" EmptyString (PyStr.replace "(" EmptyString x).

(** [instruction.split(tag)[1].split(span_close)[0]], then without
    parentheses; [IndexError] when a subscript is out of range. *)
Definition span_after (tag instruction : string) : exc string :=
  part <- index (PyStr.split tag instruction) 1 ;;
  inner <- index (PyStr.split span_close part) 0 ;;
  Ok (strip_parens inner).

(** [if not road_names or road_names[-1] != road_name:
       road_names.append(road_name)]. *)
Definition append_if_new (road_names : list string) (road_name : string)
  : list string :=
  match last (map Some road_names) None with
  | None => (road_names ++ [road_name])%list
  | Some prev =>
      if String.eqb prev road_name then road_names
      else (road_names ++ [road_name])%list
  end.

(** The body of the loop of [_get_route_from_vehicle_maneuver]. *)
Definition vehicle_step (road_names : list string) (step : json)
  : exc (list string) :=
  v <- getitem step "instruction" ;;
  except_IndexError
    (instruction <- as_str_receiver v ;;
     road_name <- span_after number_open instruction ;;
     road_name <-
       except_IndexError
         (street_name <- span_after street_open instruction ;;
          Ok (road_name ++ " - " ++ street_name))
         (Ok road_name) ;;
     Ok (append_if_new road_names road_name))
    (Ok road_names).

(** The body of the loop of [_get_route_from_non_vehicle_maneuver]. *)
Definition non_vehicle_step (road_names : list string) (step : json)
  : exc (list string) :=
  v <- getitem step "instruction" ;;
  except_IndexError
    (instruction <- as_str_receiver v ;;
     road_name <- span_after street_open instruction ;;
     Ok (append_if_new road_names road_name))
    (Ok road_names).

(** [for x in xs: acc = body(acc, x)], stopping at the first exception. *)
Fixpoint for_each {A S} (body : S -> A -> exc S) (xs : list A) (acc : S)
  : exc S :=
  match xs with
  | [] => Ok acc
  | x :: rest => acc' <- body acc x ;; for_each body rest acc'
  end.

(** The list [road_names] at the end of each maneuver loop. *)
Definition vehicle_road_names (maneuver : list json) : exc (list string) :=
  for_each vehicle_step maneuver [].

Definition non_vehicle_road_names (maneuver : list json)
  : exc (list string) :=
  for_each non_vehicle_step maneuver [].

Definition _get_route_from_vehicle_maneuver (maneuver : list json)
  : exc string :=
  road_names <- vehicle_road_names maneuver ;;
  Ok (PyStr.join "; " road_names).

Definition _get_route_from_non_vehicle_maneuver (maneuver : list json)
  : exc string :=
  road_names <- non_vehicle_road_names maneuver ;;
  Ok (PyStr.join "; " road_names).

(** The body of the loop of [_get_route_from_public_transport_line]:
    the line name, the separator and the destination are added left to
    right and the sum is appended to [lines]. *)
Definition line_step (lines : list string) (line_info : json)
  : exc (list string) :=
  name <- getitem line_info "lineName" ;;
  name <- as_str_operand name ;;
  dest <- getitem line_info "destination" ;;
  dest <- as_str_operand dest ;;
  let line := name ++ " - " ++ dest in
  Ok (lines ++ [line])%list.

Definition transport_lines (public_transport_line_segment : list json)
  : exc (list string) :=
  for_each line_step public_transport_line_segment [].

Definition _get_route_from_public_transport_line
  (public_transport_line_segment : list json) : exc string :=
  lines <- transport_lines public_transport_line_segment ;;
  Ok (PyStr.join "; " lines).

End Summarizers.

(* ================================================================= *)
(** ** The error classifier *)

(** An instance of [HEREError] or of one of its subclasses. *)
Record here_error : Type := mk_here_error {
  cls : here_class;
  message : json
}.

Definition raise_here {A} (e : here_error) : exc A :=
  Raise (Here (cls e) (message e)).

(** [error_from_routing_service_error(json_data)] on the items of the
    decoded dict.  [caller] is the name [sys._getframe(1).f_code.co_name]
    evaluates to: the function that called the classifier. *)
Definition error_from_routing_service_error
  (caller : string) (json_data : list (string * json)) : exc here_error :=
  let by_subtype :=
    if has_key "subtype" json_data then
      (subtype <- getitem (JObj json_data) "subtype" ;;
       details <- getitem (JObj json_data) "details" ;;
       if eq_str subtype "InvalidInputData" then
         Ok (Some (mk_here_error InvalidInputDataError details))
       else if eq_str subtype "WaypointNotFound" then
         Ok (Some (mk_here_error WaypointNotFoundError details))
       else if eq_str subtype "NoRouteFound" then
         Ok (Some (mk_here_error NoRouteFoundError details))
       else if eq_str subtype "LinkIdNotFound" then
         Ok (Some (mk_here_error LinkIdNotFoundError details))
       else if eq_str subtype "RouteNotReconstructed" then
         Ok (Some (mk_here_error RouteNotReconstructedError details))
       else Ok None)%exc
    else Ok None in
  let after_error_field :=
    (r <- by_subtype ;;
     match r with
     | Some e => Ok e
     | None =>
         Ok (mk_here_error HEREError (JStr ("Error occured on " ++ caller)))
     end)%exc in
  if has_key "error" json_data then
    (err <- getitem (JObj json_data) "error" ;;
     if eq_str err "Unauthorized" then
       (description <- getitem (JObj json_data) "error_description" ;;
        Ok (mk_here_error InvalidCredentialsError description))
     else after_error_field)%exc
  else after_error_field.

(* ================================================================= *)
(** ** The transport and the collaborators *)

(** What a call leaves behind outside the process. *)
Inductive event : Type :=
| EvGeocode (location_name : string)
| EvGet (url : string)
| EvPost (url : string) (body : json)
| EvSleep (seconds : Z)
| EvWrite (filename : string).

(** A [requests] response: its status code and the value its body decodes
    to, [None] when [json.loads] rejects the body. *)
Record response : Type := mk_response {
  status_code : Z;
  content : option json
}.

(** The world a call runs in: the events so far (oldest first) and the
    responses the transport will hand out, in order. *)
Record world : Type := mk_world {
  trace : list event;
  gets : list response;
  posts : list response
}.

(** How a call ends: with a value, with an exception, or waiting for a
    response that never comes. *)
Inductive outcome (A : Type) : Type :=
| Done (a : A)
| Raised (e : exn)
| Starved.
Arguments Done {A} a.
Arguments Raised {A} e.
Arguments Starved {A}.

Definition M (A : Type) : Type := world -> outcome A * world.

Definition ret {A} (a : A) : M A := fun w => (Done a, w).

Definition raise {A} (e : exn) : M A := fun w => (Raised e, w).

Definition bind {A B} (c : M A) (k : A -> M B) : M B :=
  fun w =>
    match c w with
    | (Done a, w') => k a w'
    | (Raised e, w') => (Raised e, w')
    | (Starved, w') => (Starved, w')
    end.

Definition lift {A} (c : exc A) : M A :=
  match c with
  | Ok a => ret a
  | Raise e => raise e
  end.

Declare Scope io_scope.
Delimit Scope io_scope with io.
Notation "x <- c ;; k" := (bind c (fun x => k))
  (at level 61, c at next level, right associativity) : io_scope.
Notation "c ;; k" := (bind c (fun _ => k))
  (at level 61, right associativity) : io_scope.

Definition emit (e : event) : M unit :=
  fun w => (Done tt, mk_world (trace w ++ [e]) (gets w) (posts w)).

(** [requests.get(url)]. *)
Definition requests_get (url : string) : M response :=
  fun w =>
    let t := (trace w ++ [EvGet url])%list in
    match gets w with
    | r :: rest => (Done r, mk_world t rest (posts w))
    | [] => (Starved, mk_world t [] (posts w))
    end.

(** [requests.post(url, json=body)]. *)
Definition requests_post (url : string) (body : json) : M response :=
  fun w =>
    let t := (trace w ++ [EvPost url body])%list in
    match posts w with
    | r :: rest => (Done r, mk_world t (gets w) rest)
    | [] => (Starved, mk_world t (gets w) [])
    end.

(** [json.loads(response.content.decode(...))] and [response.json()]. *)
Definition loads (r : response) : exc json :=
  match content r with
  | Some v => Ok v
  | None => Raise ValueError
  end.

(** [v.get(k)]: only a dict has the method. *)
Definition dict_get (v : json) (k : string) : exc json :=
  match v with
  | JObj fields =>
      match assoc k fields with
      | Some x => Ok x
      | None => Ok JNull
      end
  | _ => Raise AttributeError
  end.

Definition is_none (v : json) : bool :=
  match v with JNull => true | _ => false end.

(** [for x in v] over a decoded value. *)
Definition iterate (v : json) : exc (list json) :=
  match v with
  | JArr items => Ok items
  | JObj fields => Ok (map (fun kv => JStr (fst kv)) fields)
  | JStr s =>
      Ok (map (fun c => JStr (String c EmptyString)) (list_ascii_of_string s))
  | _ => Raise TypeError
  end.

(** The members of [RouteMode] that [routing_api.py] names; [OtherMode]
    stands for the remaining members of the enumeration. *)
Inductive RouteMode : Type :=
| car | truck | publicTransport | publicTransportTimeTable
| pedestrian | bicycle | fastest
| OtherMode (name : string).

Definition RouteMode_eqb (a b : RouteMode) : bool :=
  match a, b with
  | car, car | truck, truck | publicTransport, publicTransport
  | publicTransportTimeTable, publicTransportTimeTable
  | pedestrian, pedestrian | bicycle, bicycle | fastest, fastest => true
  | OtherMode x, OtherMode y => String.eqb x y
  | _, _ => false
  end.

(** A member of one of the matrix enumerations of [here_enum], known here
    by the string its [__str__] returns. *)
Record enum_member : Type := mk_enum_member { enum_str : string }.

(** A [departure] or [arrival] argument: a string, or a [datetime] object
    known here by the string its [isoformat] returns. *)
Inductive time_arg : Type :=
| TimeStr (s : string)
| TimeObj (iso : string).

(** The parts of the package outside [routing_api.py] and the client's
    configuration. *)
Record env : Type := mk_env {
  api_key : string;
  (** [Utils.build_url(base_url, extra_params)] *)
  build_url : string -> list (string * string) -> string;
  (** how [str.format] renders a value *)
  format_value : json -> string;
  (** [mode.__str__()] *)
  mode_str : RouteMode -> string;
  (** [GeocoderApi(api_key).free_form(name)]: the [items] of the response,
      or the [HEREError] raised *)
  free_form : string -> exc (list json)
}.

Definition URL_CALCULATE_ROUTE : string :=
  "https://route.ls.hereapi.com/routing/7.2/calculateroute.json".

Definition URL_CALCULATE_MATRIX : string :=
  "https://matrix.router.hereapi.com/v8/matrix".

(* ================================================================= *)
(** ** [RoutingApi] *)

(** Modelled from the spec: [RoutingResponse] of [herepy/models.py], which
    is not part of the sources at hand: the raw provider structure found
    under the key [response], and the derived short-form summary attached
    afterwards. *)
Record RoutingResponse : Type := mk_RoutingResponse {
  response_ : json;
  route_short : option string
}.

Definition new_from_jsondict (json_data : json) : exc RoutingResponse :=
  (r <- dict_get json_data "response" ;;
   Ok (mk_RoutingResponse r None))%exc.

(** [mode_values[:-1]]. *)
Fixpoint drop_last (s : string) : string :=
  match s with
  | EmptyString => EmptyString
  | String c rest =>
      match rest with
      | EmptyString => EmptyString
      | String _ _ => String c (drop_last rest)
      end
  end.

Definition _convert_datetime_to_isoformat (datetime_object : time_arg)
  : string :=
  match datetime_object with
  | TimeStr s => s
  | TimeObj iso => iso
  end.

(** An argument bound to a positional parameter. *)
Inductive arg : Type :=
| ArgSelf
| ArgStr (s : string).

(** [try: body / except: handler] with a bare [except]. *)
Definition except_any {A} (body : M A) (handler : M A) : M A :=
  fun w =>
    match body w with
    | (Raised _, w') => handler w'
    | r => r
    end.

(** [for x in xs: acc = body(acc, x)] with effects. *)
Fixpoint for_each_io {A S} (body : S -> A -> M S) (xs : list A) (acc : S)
  : M S :=
  match xs with
  | [] => ret acc
  | x :: rest => (acc' <- body acc x ;; for_each_io body rest acc')%io
  end.

(** [polling.poll(target, check_success=..., step=..., poll_forever=True)]
    of the [polling] package: call [target]; return its value when
    [check_success] holds of it; otherwise sleep [step] seconds and start
    over.  An exception of [check_success] leaves the loop.  [fuel] bounds
    the number of rounds. *)
Fixpoint poll (fuel : nat) (target : M response)
  (check_success : response -> exc json) (step : Z) : M response :=
  match fuel with
  | O => fun w => (Starved, w)
  | S fuel' =>
      (val <- target ;;
       ok <- lift (check_success val) ;;
       if truthy ok then ret val
       else emit (EvSleep step) ;; poll fuel' target check_success step)%io
  end.

Section Api.

Variable E : env.

Definition _get_coordinates_for_location_name (location_name : string)
  : M json :=
  (emit (EvGeocode location_name) ;;
   match free_form E location_name with
   | Raise (Here _ msg) => raise (Here WaypointNotFoundError msg)
   | Raise e => raise e
   | Ok items =>
       lift (first <- index items 0 ;;
             coordinates <- getitem first "position" ;;
             lat <- getitem coordinates "lat" ;;
             lng <- getitem coordinates "lng" ;;
             Ok (JArr [lat; lng]))%exc
   end)%io.

(** [if isinstance(waypoint, str): waypoint = ...(waypoint)]. *)
Definition resolve_waypoint (waypoint : json) : M json :=
  match waypoint with
  | JStr location_name => _get_coordinates_for_location_name location_name
  | _ => ret waypoint
  end.

Definition __list_to_waypoint (waypoint_a : json) : exc string :=
  (lat <- getindex waypoint_a 0 ;;
   lng <- getindex waypoint_a 1 ;;
   Ok ("geo!" ++ format_value E lat ++ "," ++ format_value E lng))%exc.

Definition __prepare_mode_values (modes : option (list RouteMode))
  : exc string :=
  match modes with
  | None => Raise TypeError
  | Some ms =>
      Ok (drop_last
            (fold_left (fun mode_values mode =>
                          mode_values ++ mode_str E mode ++ ";")
                       ms EmptyString))
  end.

(** [RoutingApi.__get] with [response_cls = RoutingResponse]. *)
Definition __get (base_url : string) (data : list (string * string))
  : M RoutingResponse :=
  (let url := build_url E base_url data in
   response <- requests_get url ;;
   json_data <- lift (loads response) ;;
   r <- lift (dict_get json_data "response") ;;
   if negb (is_none r) then lift (new_from_jsondict json_data)
   else
     match json_data with
     | JObj fields =>
         e <- lift (error_from_routing_service_error "__get" fields) ;;
         raise (Here (cls e) (message e))
     | _ => raise AttributeError
     end)%io.

(** [any(mode in modes for mode in candidates)]. *)
Definition any_mode_in (candidates modes : list RouteMode) : bool :=
  existsb (fun mode => existsb (RouteMode_eqb mode) modes) candidates.

Definition _route (waypoint_a waypoint_b : json)
  (modes : option (list RouteMode)) (departure arrival : option time_arg)
  : M RoutingResponse :=
  (waypoint_a <- resolve_waypoint waypoint_a ;;
   waypoint_b <- resolve_waypoint waypoint_b ;;
   waypoint0 <- lift (__list_to_waypoint waypoint_a) ;;
   waypoint1 <- lift (__list_to_waypoint waypoint_b) ;;
   mode <- lift (__prepare_mode_values modes) ;;
   let data := [("waypoint0", waypoint0); ("waypoint1", waypoint1);
                ("mode", mode); ("apikey", api_key E)] in
   match departure, arrival with
   | Some _, Some _ =>
       raise (Here HEREError
                (JStr "Specify either departure or arrival, not both."))
   | _, _ =>
       let data :=
         match departure with
         | Some d =>
             (data ++ [("departure", _convert_datetime_to_isoformat d)])%list
         | None => data
         end in
       let data :=
         match arrival with
         | Some a =>
             (data ++ [("arrival", _convert_datetime_to_isoformat a)])%list
         | None => data
         end in
       response <- __get URL_CALCULATE_ROUTE data ;;
       route <- lift (getitem (response_ response) "route") ;;
       maneuver <- lift (route0 <- getindex route 0 ;;
                         leg <- getitem route0 "leg" ;;
                         leg0 <- getindex leg 0 ;;
                         getitem leg0 "maneuver")%exc ;;
       let ms := match modes with Some ms => ms | None => [] end in
       if any_mode_in [car; truck] ms then
         short <- lift (steps <- iterate maneuver ;;
                        _get_route_from_vehicle_maneuver steps)%exc ;;
         ret (mk_RoutingResponse (response_ response) (Some short))
       else if any_mode_in [publicTransport; publicTransportTimeTable] ms then
         short <- lift (route0 <- getindex route 0 ;;
                        public_transport_line <-
                          getitem route0 "publicTransportLine" ;;
                        segments <- iterate public_transport_line ;;
                        _get_route_from_public_transport_line segments)%exc ;;
         ret (mk_RoutingResponse (response_ response) (Some short))
       else if any_mode_in [pedestrian; bicycle] ms then
         short <- lift (steps <- iterate maneuver ;;
                        _get_route_from_non_vehicle_maneuver steps)%exc ;;
         ret (mk_RoutingResponse (response_ response) (Some short))
       else ret response
   end)%io.

End Api.

Section Matrix.

Variable E : env.

(** The request body both matrix calls start from: the region definition
    and the optional settings, each stored when its argument is truthy. *)
Definition matrix_request_body
  (matrix_type : enum_member) (center radius : json)
  (profile : option enum_member) (departure : option string)
  (routing_mode transport_mode : option enum_member)
  (matrix_attributes : option (list enum_member))
  : exc (list (string * json)) :=
  (lat <- getindex center 0 ;;
   lng <- getindex center 1 ;;
   let request_body :=
     [("regionDefinition",
       JObj [("type", JStr (enum_str matrix_type));
             ("center", JObj [("lat", lat); ("lng", lng)]);
             ("radius", radius)])] in
   let request_body :=
     match profile with
     | Some p => setitem "profile" (JStr (enum_str p)) request_body
     | None => request_body
     end in
   let request_body :=
     match departure with
     | Some d =>
         if String.eqb d EmptyString then request_body
         else setitem "departureTime" (JStr d) request_body
     | None => request_body
     end in
   let request_body :=
     match routing_mode with
     | Some m => setitem "routingMode" (JStr (enum_str m)) request_body
     | None => request_body
     end in
   let request_body :=
     match transport_mode with
     | Some m => setitem "transportMode" (JStr (enum_str m)) request_body
     | None => request_body
     end in
   let request_body :=
     match matrix_attributes with
     | Some (a :: rest) =>
         setitem "matrixAttributes"
           (JStr (PyStr.join "," (map enum_str (a :: rest)))) request_body
     | _ => request_body
     end in
   Ok request_body)%exc.

(** The body of the loops over [origins] and over [destinations]: resolve
    a name, then append the object with the keys lat and lng. *)
Definition waypoint_step (points : list json) (point : json)
  : M (list json) :=
  (waypoint <- resolve_waypoint E point ;;
   lat <- lift (getindex waypoint 0) ;;
   lng <- lift (getindex waypoint 1) ;;
   ret (points ++ [JObj [("lat", lat); ("lng", lng)]])%list)%io.

(** [sync_matrix]; [caller] is the name of the function that called it. *)
Definition sync_matrix (caller : string)
  (origins destinations : list json)
  (matrix_type : enum_member) (center radius : json)
  (profile : option enum_member) (departure : option string)
  (routing_mode transport_mode : option enum_member)
  (matrix_attributes : option (list enum_member)) : M json :=
  (request_body <-
     lift (matrix_request_body matrix_type center radius profile departure
             routing_mode transport_mode matrix_attributes) ;;
   let query_params := [("apiKey", api_key E); ("async", "false")] in
   origin_list <- for_each_io waypoint_step origins [] ;;
   let request_body := setitem "origins" (JArr origin_list) request_body in
   destination_list <- for_each_io waypoint_step destinations [] ;;
   let request_body :=
     setitem "destinations" (JArr origin_list) request_body in
   let url := build_url E URL_CALCULATE_MATRIX query_params in
   response <- requests_post url (JObj request_body) ;;
   json_data <- lift (loads response) ;;
   matrix <- lift (dict_get json_data "matrix") ;;
   if negb (is_none matrix) then ret json_data
   else raise (Here HEREError (JStr ("Error occured on " ++ caller))))%io.

(** [__download_file(url, filename)]: two positional parameters, no
    [self].  The body streams the URL into the file. *)
Definition __download_file (args : list arg) : M string :=
  match args with
  | [ArgStr url; ArgStr filename] =>
      (r <- requests_get url ;;
       if (400 <=? status_code r)%Z && (status_code r <? 600)%Z
       then raise HTTPError
       else emit (EvWrite filename) ;; ret filename)%io
  | _ => raise TypeError
  end.

Definition __is_correct_response (response : response) : exc json :=
  (let status_code := status_code response in
   json_data <- loads response ;;
   if (status_code =? 303)%Z then Ok json_data
   else if (status_code =? 200)%Z then
     _ <- getitem json_data "matrixId" ;;
     _ <- getitem json_data "status" ;;
     Ok (JBool false)
   else if (status_code =? 401)%Z || (status_code =? 403)%Z then
     err <- getitem json_data "error" ;;
     err <- as_str_operand err ;;
     description <- getitem json_data "error_description" ;;
     description <- as_str_operand description ;;
     Raise (Here HEREError
              (JStr ("Error occured on __is_correct_response: " ++ err
                     ++ ", description: " ++ description)))
   else if (status_code =? 404)%Z || (status_code =? 500)%Z then
     title <- getitem json_data "title" ;;
     title <- as_str_operand title ;;
     status <- getitem json_data "status" ;;
     status <- as_str_operand status ;;
     Raise (Here HEREError
              (JStr ("Error occured on __is_correct_response: " ++ title
                     ++ ", status: " ++ status)))
   else Ok JNull)%exc.

(** The poll loop as [async_matrix] runs it: a GET of the status URL per
    round, five seconds between rounds, no limit on the rounds (every
    round takes a scripted response, so the fuel given here never runs
    out before the script does). *)
Definition poll_status (poll_url : string) : M response :=
  fun w =>
    poll (S (length (gets w))) (requests_get poll_url)
      __is_correct_response 5 w.

(** What [async_matrix] does with the response the poll loop returned. *)
Definition after_polling (caller : string) (result : response) : M unit :=
  except_any
    (poll_data <- lift (loads result) ;;
     _ <- lift (getitem poll_data "matrixId") ;;
     _ <- lift (getitem poll_data "status") ;;
     status <- lift (getitem poll_data "status") ;;
     if eq_str status "completed" then
       result_url <- lift (getitem poll_data "resultUrl") ;;
       result_url <- lift (as_str_operand result_url) ;;
       let download_url :=
         build_url E result_url [("apiKey", api_key E)] in
       _ <- __download_file [ArgSelf] ;;
       ret tt
     else
       err <- lift (getitem poll_data "error") ;;
       if truthy err then raise (Here HEREError err) else ret tt)%io
    (raise (Here HEREError (JStr ("Error occured on " ++ caller)))).

(** [async_matrix]; [caller] is the name of the function that called it. *)
Definition async_matrix (caller : string)
  (origins destinations : list json)
  (matrix_type : enum_member) (center radius : json)
  (profile : option enum_member) (departure : option string)
  (routing_mode transport_mode : option enum_member)
  (matrix_attributes : option (list enum_member)) : M unit :=
  (request_body <-
     lift (matrix_request_body matrix_type center radius profile departure
             routing_mode transport_mode matrix_attributes) ;;
   let query_params := [("apiKey", api_key E)] in
   origin_list <- for_each_io waypoint_step origins [] ;;
   let request_body := setitem "origins" (JArr origin_list) request_body in
   destination_list <- for_each_io waypoint_step destinations [] ;;
   let request_body :=
     setitem "destinations" (JArr destination_list) request_body in
   let url := build_url E URL_CALCULATE_MATRIX query_params in
   response <- requests_post url (JObj request_body) ;;
   if (status_code response =? 202)%Z then
     json_data <- lift (loads response) ;;
     _ <- lift (getitem json_data "matrixId") ;;
     _ <- lift (getitem json_data "status") ;;
     status_url <- lift (getitem json_data "statusUrl") ;;
     status_url <- lift (as_str_operand status_url) ;;
     let poll_url := build_url E status_url [("apiKey", api_key E)] in
     result <- poll_status poll_url ;;
     after_polling caller result
   else raise (Here HEREError (JStr ("Error occured on " ++ caller))))%io.

End Matrix.

(* ================================================================= *)
(** ** The vocabulary of the specification *)

(** The text before the leftmost occurrence of [sep], or all of [t]. *)
Definition first_piece (sep t : string) : string :=
  match PyStr.partition sep t with
  | Some (b, _) => b
  | None => t
  end.

(** The span a tag opens: the text between the leftmost occurrence of the
    tag and the next closing tag (or the next occurrence of the opening
    tag, or the end of the instruction, whichever comes first), without
    parentheses.  [None] when the opening tag does not occur. *)
Definition span_text (tag instruction : string) : option string :=
  match PyStr.partition tag instruction with
  | None => None
  | Some (_, rest) =>
      Some (strip_parens (first_piece span_close (first_piece tag rest)))
  end.

(** The entry a step contributes to the vehicle summary. *)
Definition vehicle_entry (instruction : string) : option string :=
  match span_text number_open instruction,
        span_text street_open instruction with
  | Some number, Some street => Some (number ++ " - " ++ street)
  | Some number, None => Some number
  | None, _ => None
  end.

(** The entry a step contributes to the non-vehicle summary. *)
Definition non_vehicle_entry (instruction : string) : option string :=
  span_text street_open instruction.

(** The entries of the steps that contribute one, in order. *)
Fixpoint entries (entry : string -> option string)
  (instructions : list string) : list string :=
  match instructions with
  | [] => []
  | i :: rest =>
      match entry i with
      | Some e => e :: entries entry rest
      | None => entries entry rest
      end
  end.

(** Drop every entry equal to the entry kept just before it; [prev] is
    the entry kept last. *)
Fixpoint dedup_from (prev : option string) (l : list string)
  : list string :=
  match l with
  | [] => []
  | x :: rest =>
      match prev with
      | Some p =>
          if String.eqb p x then dedup_from prev rest
          else x :: dedup_from (Some x) rest
      | None => x :: dedup_from (Some x) rest
      end
  end.

Definition dedup_adjacent (l : list string) : list string :=
  dedup_from None l.

(** No entry equals its successor. *)
Definition no_adjacent_equal (l : list string) : Prop :=
  forall i x y,
    nth_error l i = Some x -> nth_error l (S i) = Some y -> x <> y.

(** [step] is a maneuver step whose instruction is the string
    [instruction]. *)
Definition has_instruction (step : json) (instruction : string) : Prop :=
  getitem step "instruction" = Ok (JStr instruction).

(** [line_info] is a line segment with the given name and destination. *)
Definition has_line (line_info : json) (line : string * string) : Prop :=
  getitem line_info "lineName" = Ok (JStr (fst line)) /\
  getitem line_info "destination" = Ok (JStr (snd line)).

(** Every entry differs from the one before it, [prev] being the one
    before the first. *)
Fixpoint adjacent_distinct (prev : option string) (l : list string)
  : Prop :=
  match l with
  | [] => True
  | x :: rest => prev <> Some x /\ adjacent_distinct (Some x) rest
  end.

(** The last element of a list, if any. *)
Definition last_opt {A} (l : list A) : option A :=
  last (map Some l) None.

(** A maneuver step that carries only its instruction. *)
Definition step_of (instruction : string) : json :=
  JObj [("instruction", JStr instruction)].

(** The entry of a line segment. *)
Definition line_entry (line : string * string) : string :=
  fst line ++ " - " ++ snd line.

(** A line segment that carries only its name and its destination. *)
Definition segment_of (line : string * string) : json :=
  JObj [("lineName", JStr (fst line)); ("destination", JStr (snd line))].

(** ** Sample inputs *)

(** An instruction with a number span and a next-street span, roads in
    parentheses. *)
Definition instr_number_street : string :=
  "Take " ++ number_open ++ "A1</span> to " ++ street_open
          ++ "(Main St)</span>.".

(** An instruction with a number span only. *)
Definition instr_number (number : string) : string :=
  "Follow " ++ number_open ++ number ++ "</span>.".

(** An instruction with a next-street span only. *)
Definition instr_street (street : string) : string :=
  "Turn left onto " ++ street_open ++ street ++ "</span>.".

(** An instruction without markup. *)
Definition instr_plain : string := "Arrive at your destination.".

(** An instruction whose next-street span is never closed. *)
Definition instr_unclosed : string := "Turn onto " ++ street_open ++ "Main St".

(** A client whose geocoder knows Berlin and nothing else. *)
Definition demo_env : env :=
  mk_env "KEY"
    (fun base_url _ => base_url)
    (fun _ => "0")
    (fun _ => "mode")
    (fun name =>
       if String.eqb name "Berlin" then
         Ok [JObj [("position",
                    JObj [("lat", JFloat 52.5%float);
                          ("lng", JFloat 13.5%float)])]]
       else Raise (Here HEREError (JStr "no such place"))).

(** A world in which nothing has happened and no response is scripted. *)
Definition empty_world : world := mk_world [] [] [].


(** A waypoint given by its coordinates, and the object the matrix calls
    send for it. *)
Definition coordinates (p : json * json) : json := JArr [fst p; snd p].

Definition lat_lng (p : json * json) : json :=
  JObj [("lat", fst p); ("lng", snd p)].

(** The fixed table from [subtype] to the class raised. *)
Definition subtype_table : list (string * here_class) :=
  [("InvalidInputData", InvalidInputDataError);
   ("WaypointNotFound", WaypointNotFoundError);
   ("NoRouteFound", NoRouteFoundError);
   ("LinkIdNotFound", LinkIdNotFoundError);
   ("RouteNotReconstructed", RouteNotReconstructedError)].

Fixpoint table_lookup (k : string) (table : list (string * here_class))
  : option here_class :=
  match table with
  | [] => None
  | (k', c) :: rest => if String.eqb k' k then Some c else table_lookup k rest
  end.

(** The class the table gives a [subtype] value, if any: only a string can
    match. *)
Definition class_of_subtype (subtype : json) : option here_class :=
  match subtype with
  | JStr s => table_lookup s subtype_table
  | _ => None
  end.

(** The generic error: it names the calling function and nothing of the
    payload. *)
Definition generic_error (caller : string) : here_error :=
  mk_here_error HEREError (JStr ("Error occured on " ++ caller)).

(** The field [error] of the payload is the string Unauthorized. *)
Definition unauthorized (json_data : list (string * json)) : bool :=
  match assoc "error" json_data with
  | Some v => eq_str v "Unauthorized"
  | None => false
  end.

(** [w'] is [w] after some geocoder lookups and nothing else: no request
    was sent and no scripted response was used. *)
Definition only_geocoded (w w' : world) : Prop :=
  exists names,
    w' = mk_world (trace w ++ map EvGeocode names) (gets w) (posts w).

(** A computation that can only consult the geocoder, and returns or
    raises. *)
Definition quiet {A} (c : M A) : Prop :=
  forall w, exists o w',
    c w = (o, w') /\ only_geocoded w w' /\ o <> Starved.


(** A submission the provider accepted: status 202 and a body with the
    job identifier, the status and the URL to poll. *)
Definition accepted (r : response) (status_url : string) : Prop :=
  status_code r = 202%Z /\
  exists d m s,
    content r = Some d /\ getitem d "matrixId" = Ok m /\
    getitem d "status" = Ok s /\ getitem d "statusUrl" = Ok (JStr status_url).

(** A poll response with status 200 that reports on the job. *)
Definition running (r : response) : Prop :=
  status_code r = 200%Z /\
  exists d m s,
    content r = Some d /\ getitem d "matrixId" = Ok m /\
    getitem d "status" = Ok s.

(** A poll response with status 303 and a body that is not empty. *)
Definition redirected (r : response) : Prop :=
  status_code r = 303%Z /\ exists d, content r = Some d /\ truthy d = true.

(** A poll response with status 401 or 403 and the provider's error code
    and description. *)
Definition auth_failure (r : response) (code description : string) : Prop :=
  (status_code r = 401%Z \/ status_code r = 403%Z) /\
  exists d,
    content r = Some d /\ getitem d "error" = Ok (JStr code) /\
    getitem d "error_description" = Ok (JStr description).

(** The events of [k] polls that each found the job unfinished. *)
Fixpoint poll_events (url : string) (k : nat) : list event :=
  match k with
  | O => []
  | S k' => EvGet url :: EvSleep 5 :: poll_events url k'
  end.

Definition is_get (url : string) (ev : event) : bool :=
  match ev with EvGet u => String.eqb u url | _ => false end.

Definition is_post (ev : event) : bool :=
  match ev with EvPost _ _ => true | _ => false end.

(** The number of GET requests to [url], and of POST requests, in a
    trace. *)
Definition gets_sent (url : string) (t : list event) : nat :=
  length (filter (is_get url) t).

Definition posts_sent (t : list event) : nat :=
  length (filter is_post t).

(** An event that is neither a POST, nor a GET to [url], nor a pause. *)
Definition no_poll_no_post (url : string) (ev : event) : Prop :=
  is_get url ev = false /\ is_post ev = false /\
  forall n, ev <> EvSleep n.

(** Responses of the matrix service: the body of a job report, and
    responses that carry one. *)
Definition job_body (status : string) : json :=
  JObj [("matrixId", JStr "m1"); ("status", JStr status);
        ("statusUrl", JStr "https://status");
        ("resultUrl", JStr "https://result")].

Definition r_accepted : response := mk_response 202 (Some (job_body "accepted")).

Definition r_running : response :=
  mk_response 200 (Some (job_body "inProgress")).

Definition r_redirect (status : string) : response :=
  mk_response 303 (Some (job_body status)).

Definition r_completed : response :=
  mk_response 200 (Some (job_body "completed")).

Definition r_unauthorized : response :=
  mk_response 401
    (Some (JObj [("error", JStr "Unauthorized");
                 ("error_description", JStr "bad key")])).

(** An asynchronous matrix request for one origin and one destination, in
    a world where the submission is accepted and the polls are answered by
    [polls]. *)
Definition demo_async (polls : list response) : outcome unit * world :=
  async_matrix demo_env "main"
    (map coordinates [(JInt 1, JInt 2)]) (map coordinates [(JInt 3, JInt 4)])
    (mk_enum_member "circle") (coordinates (JInt 0, JInt 0)) (JInt 10000)
    None None None None None
    (mk_world [] polls [r_accepted]).

(* ================================================================= *)
(** ** The public route calls *)

Section RouteCalls.

Variable E : env.

(** [if modes is None: modes = default]. *)
Definition modes_or (modes : option (list RouteMode))
  (default : list RouteMode) : option (list RouteMode) :=
  match modes with
  | None => Some default
  | Some ms => Some ms
  end.

Definition bicycle_route (waypoint_a waypoint_b : json)
  (modes : option (list RouteMode)) (departure : option time_arg)
  : M RoutingResponse :=
  _route E waypoint_a waypoint_b (modes_or modes [bicycle; fastest])
    departure None.

Definition car_route (waypoint_a waypoint_b : json)
  (modes : option (list RouteMode)) (departure : option time_arg)
  : M RoutingResponse :=
  _route E waypoint_a waypoint_b (modes_or modes [car; fastest])
    departure None.

Definition pedastrian_route (waypoint_a waypoint_b : json)
  (modes : option (list RouteMode)) (departure : option time_arg)
  : M RoutingResponse :=
  _route E waypoint_a waypoint_b (modes_or modes [pedestrian; fastest])
    departure None.

Definition intermediate_route (waypoint_a waypoint_b waypoint_c : json)
  (modes : option (list RouteMode)) (departure : option time_arg)
  : M RoutingResponse :=
  _route E waypoint_a waypoint_b (modes_or modes [car; fastest])
    departure None.

Definition public_transport (waypoint_a waypoint_b : json)
  (combine_change : bool)
  (modes : option (list RouteMode)) (departure : option time_arg)
  : M RoutingResponse :=
  _route E waypoint_a waypoint_b (modes_or modes [publicTransport; fastest])
    departure None.

Definition public_transport_timetable (waypoint_a waypoint_b : json)
  (combine_change : bool)
  (modes : option (list RouteMode)) (departure arrival : option time_arg)
  : M RoutingResponse :=
  _route E waypoint_a waypoint_b
    (modes_or modes [publicTransportTimeTable; fastest]) departure arrival.

Definition location_near_motorway (waypoint_a waypoint_b : json)
  (modes : option (list RouteMode)) (departure : option time_arg)
  : M RoutingResponse :=
  _route E waypoint_a waypoint_b (modes_or modes [car; fastest])
    departure None.

Definition truck_route (waypoint_a waypoint_b : json)
  (modes : option (list RouteMode)) (departure : option time_arg)
  : M RoutingResponse :=
  _route E waypoint_a waypoint_b (modes_or modes [truck; fastest])
    departure None.

End RouteCalls.

(* ================================================================= *)
(** ** Further vocabulary *)

(** [s] without the occurrences of the character [c]. *)
Fixpoint remove_char (c : ascii) (s : string) : string :=
  match s with
  | EmptyString => EmptyString
  | String a rest =>
      if Ascii.eqb a c then remove_char c rest
      else String a (remove_char c rest)
  end.

(** [c] is a character of [s]. *)
Fixpoint has_char (c : ascii) (s : string) : bool :=
  match s with
  | EmptyString => false
  | String a rest => Ascii.eqb a c || has_char c rest
  end.

Definition lparen : ascii := Ascii false false false true false true false false.

Definition rparen : ascii := Ascii true false false true false true false false.

(** The query parameters of a route request for waypoints given by
    coordinates. *)
Definition route_params (E : env) (pa pb : json * json)
  (ms : list RouteMode) (departure arrival : option time_arg)
  : list (string * string) :=
  let waypoint0 :=
    "geo!" ++ format_value E (fst pa) ++ "," ++ format_value E (snd pa) in
  let waypoint1 :=
    "geo!" ++ format_value E (fst pb) ++ "," ++ format_value E (snd pb) in
  let mode := PyStr.join ";" (map (mode_str E) ms) in
  app [("waypoint0", waypoint0); ("waypoint1", waypoint1); ("mode", mode);
       ("apikey", api_key E)]
    (app match departure with
         | Some d => [("departure", _convert_datetime_to_isoformat d)]
         | None => []
         end
         match arrival with
         | Some a => [("arrival", _convert_datetime_to_isoformat a)]
         | None => []
         end).

(** [v] is the value under [response] of a route reply whose first route
    has [maneuver] in its first leg. *)
Definition first_maneuver (v route0 maneuver : json) : Prop :=
  exists route leg leg0,
    getitem v "route" = Ok route /\ getindex route 0 = Ok route0 /\
    getitem route0 "leg" = Ok leg /\ getindex leg 0 = Ok leg0 /\
    getitem leg0 "maneuver" = Ok maneuver.

(** A poll response with status 404 or 500 and the provider's title and
    status. *)
Definition server_failure (r : response) (title status : string) : Prop :=
  (status_code r = 404%Z \/ status_code r = 500%Z) /\
  exists d,
    content r = Some d /\ getitem d "title" = Ok (JStr title) /\
    getitem d "status" = Ok (JStr status).

(** A poll response whose status code [__is_correct_response] has no
    branch for, with a body that decodes. *)
Definition unhandled_status (r : response) : Prop :=
  status_code r <> 303%Z /\ status_code r <> 200%Z /\
  status_code r <> 401%Z /\ status_code r <> 403%Z /\
  status_code r <> 404%Z /\ status_code r <> 500%Z /\
  content r <> None.

(** The computation only appends events, and each of them satisfies
    [ok]. *)
Definition emits {A} (ok : event -> bool) (c : M A) : Prop :=
  forall w, exists t,
    trace (snd (c w)) = (trace w ++ t)%list /\ forallb ok t = true.

Definition not_post (ev : event) : bool := negb (is_post ev).

Definition not_request (ev : event) : bool :=
  match ev with
  | EvGet _ | EvPost _ _ => false
  | _ => true
  end.

Definition not_write (ev : event) : bool :=
  match ev with
  | EvWrite _ => false
  | _ => true
  end.

(** [r] is a route reply whose body is a dict with a [response] that is
    not [None]. *)
Definition route_reply (r : response) (v : json) : Prop :=
  exists fields,
    content r = Some (JObj fields) /\ assoc "response" fields = Some v /\
    is_none v = false.

(** [r] is a reply whose body is the dict [fields], without a
    [response]. *)
Definition error_reply (r : response) (fields : list (string * json))
  : Prop :=
  content r = Some (JObj fields) /\
  (assoc "response" fields = None \/ assoc "response" fields = Some JNull).

(** The world after a GET of [url] that was answered. *)
Definition after_get (url : string) (rest : list response) (w : world)
  : world :=
  mk_world (trace w ++ [EvGet url]) rest (posts w).

(** A poll response the loop does not stop at: status 200 with a job
    report, whatever the job's status; a status code without a branch; or
    status 303 with an empty body. *)
Definition not_done (r : response) : Prop :=
  running r \/ unhandled_status r \/
  (status_code r = 303%Z /\ exists d, content r = Some d /\ truthy d = false).

Definition is_geocode (ev : event) : bool :=
  match ev with
  | EvGeocode _ => true
  | _ => false
  end.

(** A poll or a pause. *)
Definition is_poll_or_pause (ev : event) : bool :=
  match ev with
  | EvGet _ | EvSleep _ => true
  | _ => false
  end.

(** The computation leaves the world as it is. *)
Definition pure_io {A} (c : M A) : Prop :=
  forall w, snd (c w) = w.

(** The computation appends geocoder lookups and then at most one more
    event, which satisfies [req]. *)
Definition at_most_one {A} (req : event -> Prop) (c : M A) : Prop :=
  forall w, exists lookups sent,
    trace (snd (c w)) = (trace w ++ lookups ++ sent)%list /\
    forallb is_geocode lookups = true /\
    (sent = [] \/ exists ev, sent = [ev] /\ req ev).

(** The computation appends geocoder lookups and then either nothing or
    an event that satisfies [req] followed by polls and pauses. *)
Definition one_then_polls {A} (req : event -> Prop) (c : M A) : Prop :=
  forall w, exists lookups sent,
    trace (snd (c w)) = (trace w ++ lookups ++ sent)%list /\
    forallb is_geocode lookups = true /\
    (sent = [] \/
     exists ev polls,
       sent = ev :: polls /\ req ev /\ forallb is_poll_or_pause polls = true).

(** The world after a geocoder lookup. *)
Definition after_geocode (name : string) (w : world) : world :=
  mk_world (trace w ++ [EvGeocode name]) (gets w) (posts w).

(** An optional setting of the matrix request body. *)
Definition setting (key : string) (value : option string)
  : list (string * json) :=
  match value with
  | Some v => [(key, JStr v)]
  | None => []
  end.

(** A string that is given and not empty. *)
Definition non_empty (s : option string) : option string :=
  match s with
  | Some v => if String.eqb v EmptyString then None else Some v
  | None => None
  end.

(** The attribute names joined with commas, for a list that is given and
    not empty. *)
Definition joined_attributes (attrs : option (list enum_member))
  : option string :=
  match attrs with
  | Some (a :: rest) => Some (PyStr.join "," (map enum_str (a :: rest)))
  | _ => None
  end.

(** The character that opens a tag. *)
Definition langle : ascii := "<"%char.

(** The place names among a list of waypoints, in order. *)
Fixpoint names_in (points : list json) : list string :=
  match points with
  | [] => []
  | JStr name :: rest => name :: names_in rest
  | _ :: rest => names_in rest
  end.

(** The waypoint [point] resolves to the pair [p]: it is a list that
    starts with the two coordinates, or a name whose first item found by
    the geocoder has them as its position. *)
Definition resolves (E : env) (point : json) (p : json * json) : Prop :=
  (exists more, point = JArr (fst p :: snd p :: more)) \/
  (exists name first others pos,
      point = JStr name /\ free_form E name = Ok (first :: others) /\
      getitem first "position" = Ok pos /\
      getitem pos "lat" = Ok (fst p) /\ getitem pos "lng" = Ok (snd p)).

(** The world after the geocoder lookups of [names]. *)
Definition after_lookups (names : list string) (w : world) : world :=
  mk_world (trace w ++ map EvGeocode names) (gets w) (posts w).

(** The generic error of the matrix calls. *)
Definition matrix_error (caller : string) : exn :=
  Here HEREError (JStr ("Error occured on " ++ caller)).

(** A route reply: one route, one leg with two maneuver steps, and one
    public-transport line. *)
Definition sample_route0 : json :=
  JObj [("leg",
         JArr [JObj [("maneuver",
                      JArr [step_of (instr_number "A1");
                            step_of (instr_street "Main St")])]]);
        ("publicTransportLine", JArr [segment_of ("U1", "X")])].

Definition sample_route_value : json := JObj [("route", JArr [sample_route0])].

Definition sample_route_reply : response :=
  mk_response 200 (Some (JObj [("response", sample_route_value)])).

(* ================================================================= *)
(** * Properties *)

(** ** Strings *)

Lemma strip_prefix_Some (p s r : string) :
  PyStr.strip_prefix p s = Some r <-> s = p ++ r.
Proof.
  revert s; induction p as [|a p IH]; intros s; simpl.
  - split; intros H; [now inversion H | now subst].
  - destruct s as [|b s].
    + split; intros H; discriminate.
    + destruct (Ascii.eqb a b) eqn:Hab.
      * apply Ascii.eqb_eq in Hab; subst b. rewrite IH.
        split; intros H; [now subst | now inversion H].
      * apply Ascii.eqb_neq in Hab.
        split; intros H; [discriminate | inversion H; congruence].
Qed.

Lemma partition_unfold (sep s : string) :
  PyStr.partition sep s =
  match PyStr.strip_prefix sep s with
  | Some rest => Some (EmptyString, rest)
  | None =>
      match s with
      | EmptyString => None
      | String c s' =>
          match PyStr.partition sep s' with
          | Some (b, a) => Some (String c b, a)
          | None => None
          end
      end
  end.
Proof. destruct s; reflexivity. Qed.

(** [partition] cuts its argument around an occurrence of the separator. *)
Lemma partition_Some (sep s b a : string) :
  PyStr.partition sep s = Some (b, a) -> s = b ++ sep ++ a.
Proof.
  revert b a; induction s as [|c s IH]; intros b a; rewrite partition_unfold.
  - destruct (PyStr.strip_prefix sep EmptyString) eqn:Hp; [|discriminate].
    intros H; inversion H; subst. now apply strip_prefix_Some in Hp.
  - destruct (PyStr.strip_prefix sep (String c s)) eqn:Hp.
    + intros H; inversion H; subst. now apply strip_prefix_Some in Hp.
    + destruct (PyStr.partition sep s) as [[b0 a0]|] eqn:Hq; [|discriminate].
      intros H; inversion H; subst. simpl. f_equal. now apply IH.
Qed.

(** ... and that occurrence is the leftmost one. *)
Lemma partition_leftmost (sep s b a : string) :
  PyStr.partition sep s = Some (b, a) ->
  forall b' a', s = b' ++ sep ++ a' -> String.length b <= String.length b'.
Proof.
  revert b a; induction s as [|c s IH]; intros b a; rewrite partition_unfold.
  - destruct (PyStr.strip_prefix sep EmptyString) eqn:Hp; [|discriminate].
    intros H; inversion H; subst. simpl; lia.
  - destruct (PyStr.strip_prefix sep (String c s)) eqn:Hp.
    + intros H; inversion H; subst. simpl; lia.
    + destruct (PyStr.partition sep s) as [[b0 a0]|] eqn:Hq; [|discriminate].
      intros H b' a' Hs; inversion H; subst b a.
      destruct b' as [|c' b'].
      * simpl in Hs. apply strip_prefix_Some in Hs. congruence.
      * simpl in Hs. inversion Hs; subst. simpl.
        apply le_n_S. eapply IH; eauto.
Qed.

Lemma partition_None (sep s : string) :
  PyStr.partition sep s = None -> ~ PyStr.occurs sep s.
Proof.
  induction s as [|c s IH]; rewrite partition_unfold.
  - destruct (PyStr.strip_prefix sep EmptyString) eqn:Hp; [discriminate|].
    intros _ [a [b H]]. destruct a; simpl in H.
    + apply strip_prefix_Some in H. congruence.
    + discriminate.
  - destruct (PyStr.strip_prefix sep (String c s)) eqn:Hp; [discriminate|].
    destruct (PyStr.partition sep s) as [[b0 a0]|] eqn:Hq; [discriminate|].
    intros _ [a [b H]]. destruct a as [|c' a]; simpl in H.
    + apply strip_prefix_Some in H. congruence.
    + inversion H; subst. apply IH; [reflexivity|]. now exists a, b.
Qed.

(** [contains] decides [occurs]. *)
Lemma contains_occurs (sep s : string) :
  PyStr.contains sep s = true <-> PyStr.occurs sep s.
Proof.
  unfold PyStr.contains.
  destruct (PyStr.partition sep s) as [[b a]|] eqn:Hp.
  - split; [intros _|reflexivity]. exists b, a. now apply partition_Some.
  - split; [discriminate|]. intros H. now apply partition_None in H.
Qed.

Lemma contains_false (sep s : string) :
  PyStr.contains sep s = false <-> ~ PyStr.occurs sep s.
Proof.
  rewrite <- contains_occurs. destruct (PyStr.contains sep s); split;
    intros H; try reflexivity; try discriminate; try (intros; discriminate).
  exfalso; now apply H.
Qed.

Lemma split_fuel_head (n : nat) (sep t : string) :
  exists rest, PyStr.split_fuel (S n) sep t = first_piece sep t :: rest.
Proof.
  unfold first_piece; simpl.
  destruct (PyStr.partition sep t) as [[b a]|]; eauto.
Qed.

(** The subscript [0] of a split never fails. *)
Lemma index_split_0 (sep t : string) :
  index (PyStr.split sep t) 0 = Ok (first_piece sep t).
Proof.
  unfold PyStr.split.
  destruct (split_fuel_head (String.length t) sep t) as [rest ->].
  reflexivity.
Qed.

Lemma length_append (a b : string) :
  String.length (a ++ b) = String.length a + String.length b.
Proof. induction a; simpl; congruence. Qed.

Lemma partition_shorter (sep s b a : string) :
  sep <> EmptyString ->
  PyStr.partition sep s = Some (b, a) ->
  String.length a < String.length s.
Proof.
  intros Hsep H. apply partition_Some in H. subst s.
  rewrite !length_append. destruct sep; [congruence|]. simpl. lia.
Qed.

(** The subscript [1] of a split fails exactly when the separator does not
    occur. *)
Lemma index_split_1 (sep s : string) :
  sep <> EmptyString ->
  index (PyStr.split sep s) 1 =
  match PyStr.partition sep s with
  | None => Raise IndexError
  | Some (_, a) => Ok (first_piece sep a)
  end.
Proof.
  intros Hsep. unfold PyStr.split. simpl.
  destruct (PyStr.partition sep s) as [[b a]|] eqn:Hp; [|reflexivity].
  pose proof (partition_shorter _ _ _ _ Hsep Hp) as Hlen.
  destruct (String.length s) as [|n]; [lia|].
  destruct (split_fuel_head n sep a) as [rest ->]. reflexivity.
Qed.

(** Cutting with enough fuel and joining again gives the string back. *)
Lemma join_split_fuel (sep : string) (n : nat) (s : string) :
  sep <> EmptyString -> String.length s < n ->
  PyStr.join sep (PyStr.split_fuel n sep s) = s.
Proof.
  intros Hsep. revert s; induction n as [|n IH]; intros s Hn; [lia|].
  simpl. destruct (PyStr.partition sep s) as [[b a]|] eqn:Hp; [|reflexivity].
  pose proof (partition_shorter _ _ _ _ Hsep Hp) as Hlen.
  pose proof (partition_Some _ _ _ _ Hp) as Hs.
  assert (Hj : PyStr.join sep (PyStr.split_fuel n sep a) = a)
    by (apply IH; lia).
  destruct n as [|m]; [lia|].
  destruct (split_fuel_head m sep a) as [rest Hr].
  rewrite Hr in *. simpl in *. rewrite Hj. now subst s.
Qed.

Lemma join_split (sep s : string) :
  sep <> EmptyString -> PyStr.join sep (PyStr.split sep s) = s.
Proof. intros H. apply join_split_fuel; [assumption|lia]. Qed.

Lemma number_open_nonempty : number_open <> EmptyString.
Proof. discriminate. Qed.

Lemma street_open_nonempty : street_open <> EmptyString.
Proof. discriminate. Qed.

(** ** Span extraction *)

(** The chain of splits and subscripts computes [span_text]; it raises
    [IndexError], and nothing else, when there is no such span. *)
Lemma span_after_text (tag instruction : string) :
  tag <> EmptyString ->
  span_after tag instruction =
  match span_text tag instruction with
  | Some t => Ok t
  | None => Raise IndexError
  end.
Proof.
  intros Htag. unfold span_after, span_text, ebind.
  rewrite (index_split_1 _ _ Htag).
  destruct (PyStr.partition tag instruction) as [[b a]|]; [|reflexivity].
  now rewrite index_split_0.
Qed.

(** A span is extractable exactly when its opening tag occurs. *)
Lemma span_text_occurs (tag instruction : string) :
  span_text tag instruction <> None <-> PyStr.occurs tag instruction.
Proof.
  rewrite <- contains_occurs. unfold span_text, PyStr.contains.
  destruct (PyStr.partition tag instruction) as [[b a]|];
    split; intros H; congruence.
Qed.

Lemma span_text_absent (tag instruction : string) :
  ~ PyStr.occurs tag instruction -> span_text tag instruction = None.
Proof.
  intros H. destruct (span_text tag instruction) eqn:Hs; [|reflexivity].
  exfalso. apply H, span_text_occurs. congruence.
Qed.

(** ** Suppression of repeated entries *)

Lemma last_opt_snoc {A} (l : list A) (x : A) :
  last_opt (l ++ [x])%list = Some x.
Proof.
  unfold last_opt. rewrite map_app. simpl. now rewrite last_last.
Qed.

(** The accumulating loop appends the entries that differ from the entry
    kept last. *)
Lemma fold_append_if_new (l acc : list string) :
  fold_left append_if_new l acc = (acc ++ dedup_from (last_opt acc) l)%list.
Proof.
  revert acc; induction l as [|x l IH]; intros acc; simpl.
  - now rewrite app_nil_r.
  - unfold append_if_new at 2. fold (last_opt acc).
    destruct (last_opt acc) as [p|] eqn:Hl.
    + destruct (String.eqb p x) eqn:Hpx.
      * rewrite IH, Hl. reflexivity.
      * rewrite IH, last_opt_snoc, <- app_assoc. reflexivity.
    + rewrite IH, last_opt_snoc, <- app_assoc. reflexivity.
Qed.

Lemma dedup_from_distinct (prev : option string) (l : list string) :
  adjacent_distinct prev (dedup_from prev l).
Proof.
  revert prev; induction l as [|x l IH]; intros prev; simpl; [exact I|].
  destruct prev as [p|].
  - destruct (String.eqb p x) eqn:Hpx; [apply IH|].
    simpl. split; [|apply IH].
    apply String.eqb_neq in Hpx. congruence.
  - simpl. split; [discriminate|apply IH].
Qed.

Lemma adjacent_distinct_weaken (prev : option string) (l : list string) :
  adjacent_distinct prev l -> adjacent_distinct None l.
Proof. destruct l; simpl; [trivial|]. intros [_ H]. split; [discriminate|exact H]. Qed.

Lemma adjacent_distinct_no_equal (prev : option string) (l : list string) :
  adjacent_distinct prev l -> no_adjacent_equal l.
Proof.
  revert prev; induction l as [|a l IH]; intros prev H i x y Hx Hy.
  - destruct i; discriminate.
  - destruct H as [_ H]. destruct i as [|i]; simpl in Hx, Hy.
    + inversion Hx; subst a. destruct l as [|b l]; [discriminate|].
      simpl in Hy. inversion Hy; subst b. destruct H as [H _]. congruence.
    + eapply IH; eauto.
Qed.

Lemma no_equal_adjacent_distinct (l : list string) :
  no_adjacent_equal l -> adjacent_distinct None l.
Proof.
  induction l as [|a l IH]; intros H; simpl; [exact I|].
  split; [discriminate|].
  assert (Hl : no_adjacent_equal l).
  { intros i x y Hx Hy. apply (H (S i) x y); assumption. }
  specialize (IH Hl). destruct l as [|b l]; [exact I|].
  simpl. split; [|apply IH].
  intros Heq. inversion Heq; subst b.
  exact (H 0 a a eq_refl eq_refl eq_refl).
Qed.

(** A list without adjacent repetitions is kept as it is, whatever
    repetitions it has further apart. *)
Lemma dedup_from_fixed (prev : option string) (l : list string) :
  adjacent_distinct prev l -> dedup_from prev l = l.
Proof.
  revert prev; induction l as [|x l IH]; intros prev; simpl; [reflexivity|].
  intros [Hp Hl]. destruct prev as [p|].
  - destruct (String.eqb p x) eqn:Hpx.
    + apply String.eqb_eq in Hpx. congruence.
    + f_equal. now apply IH.
  - f_equal. now apply IH.
Qed.

(** ** The loops of the summarizers *)

Lemma vehicle_step_entry (names : list string) (step : json) (i : string) :
  has_instruction step i ->
  vehicle_step names step =
  Ok (match vehicle_entry i with
      | Some e => append_if_new names e
      | None => names
      end).
Proof.
  unfold has_instruction, vehicle_step, vehicle_entry. intros ->.
  unfold ebind at 1. unfold as_str_receiver. unfold ebind at 1.
  rewrite (span_after_text _ _ number_open_nonempty).
  destruct (span_text number_open i) as [n|]; [|reflexivity].
  unfold ebind at 1.
  rewrite (span_after_text _ _ street_open_nonempty).
  destruct (span_text street_open i) as [st|]; reflexivity.
Qed.

Lemma non_vehicle_step_entry (names : list string) (step : json)
  (i : string) :
  has_instruction step i ->
  non_vehicle_step names step =
  Ok (match non_vehicle_entry i with
      | Some e => append_if_new names e
      | None => names
      end).
Proof.
  unfold has_instruction, non_vehicle_step, non_vehicle_entry. intros ->.
  unfold ebind at 1. unfold as_str_receiver. unfold ebind at 1.
  rewrite (span_after_text _ _ street_open_nonempty).
  destruct (span_text street_open i) as [st|]; reflexivity.
Qed.

Lemma fold_entries (entry : string -> option string) (instrs : list string)
  (acc : list string) :
  fold_left (fun names i =>
               match entry i with
               | Some e => append_if_new names e
               | None => names
               end) instrs acc
  = fold_left append_if_new (entries entry instrs) acc.
Proof.
  revert acc; induction instrs as [|i instrs IH]; intros acc; simpl; [reflexivity|].
  destruct (entry i); simpl; apply IH.
Qed.

Lemma for_each_entries
  (body : list string -> json -> exc (list string))
  (entry : string -> option string) :
  (forall names step i,
      has_instruction step i ->
      body names step =
      Ok (match entry i with
          | Some e => append_if_new names e
          | None => names
          end)) ->
  forall maneuver instrs acc,
    Forall2 has_instruction maneuver instrs ->
    for_each body maneuver acc
    = Ok (acc ++ dedup_from (last_opt acc) (entries entry instrs))%list.
Proof.
  intros Hbody maneuver instrs acc H. rewrite <- fold_append_if_new, <- fold_entries.
  revert acc; induction H as [|step i maneuver instrs Hs _ IH]; intros acc; simpl.
  - reflexivity.
  - rewrite (Hbody _ _ _ Hs). simpl. apply IH.
Qed.

Lemma vehicle_road_names_entries (maneuver : list json) (instrs : list string) :
  Forall2 has_instruction maneuver instrs ->
  vehicle_road_names maneuver = Ok (dedup_adjacent (entries vehicle_entry instrs)).
Proof.
  intros H. unfold vehicle_road_names.
  now rewrite (for_each_entries _ _ vehicle_step_entry _ _ [] H).
Qed.

Lemma non_vehicle_road_names_entries (maneuver : list json)
  (instrs : list string) :
  Forall2 has_instruction maneuver instrs ->
  non_vehicle_road_names maneuver
  = Ok (dedup_adjacent (entries non_vehicle_entry instrs)).
Proof.
  intros H. unfold non_vehicle_road_names.
  now rewrite (for_each_entries _ _ non_vehicle_step_entry _ _ [] H).
Qed.

(** A step the loop body leaves the accumulator alone on can be removed
    from the input. *)
Lemma for_each_skip {A S} (body : S -> A -> exc S) (x : A) :
  (forall acc, body acc x = Ok acc) ->
  forall pre post acc,
    for_each body (pre ++ x :: post) acc = for_each body (pre ++ post) acc.
Proof.
  intros Hx pre post. induction pre as [|p pre IH]; intros acc; simpl.
  - now rewrite Hx.
  - destruct (body acc p); simpl; [apply IH|reflexivity].
Qed.

Lemma for_each_lines (segments : list json) (lines : list (string * string))
  (acc : list string) :
  Forall2 has_line segments lines ->
  for_each line_step segments acc = Ok (acc ++ map line_entry lines)%list.
Proof.
  intros H. revert acc.
  induction H as [|seg line segments lines [Hn Hd] _ IH]; intros acc; simpl.
  - now rewrite app_nil_r.
  - unfold line_step at 1. rewrite Hn. simpl. rewrite Hd. simpl.
    rewrite IH, <- app_assoc. reflexivity.
Qed.

(** ** The summaries *)

(** C3: for every list of maneuver steps, the entries the vehicle and the
    non-vehicle summarizer join with a semicolon and a space contain no two
    equal neighbours; a candidate is compared with the entry emitted last
    and with no other, so that an entry equal to an earlier one that is not
    its neighbour is kept. *)
Theorem summary_entries_no_adjacent_duplicates
  (maneuver : list json) (instrs : list string) :
  Forall2 has_instruction maneuver instrs ->
  (exists names,
      vehicle_road_names maneuver = Ok names /\
      _get_route_from_vehicle_maneuver maneuver = Ok (PyStr.join "; " names) /\
      no_adjacent_equal names /\
      (no_adjacent_equal (entries vehicle_entry instrs) ->
       names = entries vehicle_entry instrs)) /\
  (exists names,
      non_vehicle_road_names maneuver = Ok names /\
      _get_route_from_non_vehicle_maneuver maneuver
      = Ok (PyStr.join "; " names) /\
      no_adjacent_equal names /\
      (no_adjacent_equal (entries non_vehicle_entry instrs) ->
       names = entries non_vehicle_entry instrs)) /\
  (forall names c,
      last_opt names <> Some c ->
      append_if_new names c = (names ++ [c])%list) /\
  (forall names c, last_opt names = Some c -> append_if_new names c = names).
Proof.
  intros H. repeat split.
  - exists (dedup_adjacent (entries vehicle_entry instrs)).
    unfold _get_route_from_vehicle_maneuver.
    rewrite (vehicle_road_names_entries _ _ H). repeat split.
    + eapply adjacent_distinct_no_equal, dedup_from_distinct.
    + intros Hn. apply dedup_from_fixed. now apply no_equal_adjacent_distinct.
  - exists (dedup_adjacent (entries non_vehicle_entry instrs)).
    unfold _get_route_from_non_vehicle_maneuver.
    rewrite (non_vehicle_road_names_entries _ _ H). repeat split.
    + eapply adjacent_distinct_no_equal, dedup_from_distinct.
    + intros Hn. apply dedup_from_fixed. now apply no_equal_adjacent_distinct.
  - intros names c Hc. unfold append_if_new. fold (last_opt names).
    destruct (last_opt names) as [p|]; [|reflexivity].
    destruct (String.eqb p c) eqn:Hpc; [|reflexivity].
    apply String.eqb_eq in Hpc. congruence.
  - intros names c Hc. unfold append_if_new. fold (last_opt names).
    rewrite Hc. now rewrite String.eqb_refl.
Qed.

(** C4: per step the vehicle summarizer contributes the number and the
    street joined by a dash when both spans can be extracted, the number
    alone when only the number span can, and nothing when neither can; the
    entries that survive the suppression of repeated neighbours are joined
    with a semicolon and a space. *)
Theorem vehicle_summary_entries
  (maneuver : list json) (instrs : list string) :
  Forall2 has_instruction maneuver instrs ->
  _get_route_from_vehicle_maneuver maneuver
  = Ok (PyStr.join "; " (dedup_adjacent (entries vehicle_entry instrs))) /\
  (forall i,
      (PyStr.occurs number_open i -> PyStr.occurs street_open i ->
       exists number street,
         span_text number_open i = Some number /\
         span_text street_open i = Some street /\
         vehicle_entry i = Some (number ++ " - " ++ street)) /\
      (PyStr.occurs number_open i -> ~ PyStr.occurs street_open i ->
       exists number,
         span_text number_open i = Some number /\
         vehicle_entry i = Some number) /\
      (~ PyStr.occurs number_open i -> ~ PyStr.occurs street_open i ->
       vehicle_entry i = None)).
Proof.
  intros H. split.
  - unfold _get_route_from_vehicle_maneuver.
    now rewrite (vehicle_road_names_entries _ _ H).
  - intros i. unfold vehicle_entry. repeat split.
    + intros Hn Hs. apply span_text_occurs in Hn, Hs.
      destruct (span_text number_open i) as [n|]; [|congruence].
      destruct (span_text street_open i) as [st|]; [|congruence].
      now exists n, st.
    + intros Hn Hs. apply span_text_occurs in Hn.
      rewrite (span_text_absent _ _ Hs).
      destruct (span_text number_open i) as [n|]; [|congruence].
      now exists n.
    + intros Hn _. now rewrite (span_text_absent _ _ Hn).
Qed.

(** C10: a step whose instruction has a next-street span but no number
    span contributes nothing to the vehicle summary: the street alone is
    never an entry. *)
Theorem vehicle_street_without_number_skipped (step : json) (i : string) :
  has_instruction step i ->
  PyStr.occurs street_open i ->
  ~ PyStr.occurs number_open i ->
  span_text street_open i <> None /\
  vehicle_entry i = None /\
  (forall names, vehicle_step names step = Ok names) /\
  (forall pre post,
      _get_route_from_vehicle_maneuver (pre ++ step :: post)
      = _get_route_from_vehicle_maneuver (pre ++ post)).
Proof.
  intros Hi Hs Hn.
  assert (He : vehicle_entry i = None)
    by (unfold vehicle_entry; now rewrite (span_text_absent _ _ Hn)).
  assert (Hstep : forall names, vehicle_step names step = Ok names)
    by (intros names; now rewrite (vehicle_step_entry _ _ _ Hi), He).
  repeat split; try assumption.
  - now apply span_text_occurs.
  - intros pre post.
    unfold _get_route_from_vehicle_maneuver, vehicle_road_names.
    now rewrite (for_each_skip _ _ Hstep).
Qed.

(** C9: the public-transport summarizer contributes the line name and the
    destination joined by a dash for every segment, suppressing and
    skipping nothing, and joins the entries with a semicolon and a space;
    the segments U1 to X and U2 to Y give exactly "U1 - X; U2 - Y". *)
Theorem public_transport_summary
  (segments : list json) (lines : list (string * string)) :
  Forall2 has_line segments lines ->
  transport_lines segments = Ok (map line_entry lines) /\
  length (map line_entry lines) = length segments /\
  _get_route_from_public_transport_line segments
  = Ok (PyStr.join "; " (map line_entry lines)) /\
  _get_route_from_public_transport_line
    [JObj [("lineName", JStr "U1"); ("destination", JStr "X")];
     JObj [("lineName", JStr "U2"); ("destination", JStr "Y")]]
  = Ok "U1 - X; U2 - Y".
Proof.
  intros H.
  assert (Ht : transport_lines segments = Ok (map line_entry lines))
    by (unfold transport_lines; now rewrite (for_each_lines _ _ [] H)).
  repeat split.
  - exact Ht.
  - rewrite length_map. symmetry. eapply Forall2_length; eauto.
  - unfold _get_route_from_public_transport_line. now rewrite Ht.
Qed.

Lemma steps_have_instructions (instrs : list string) :
  Forall2 has_instruction (map step_of instrs) instrs.
Proof. induction instrs; simpl; constructor; [reflexivity|assumption]. Qed.

Lemma segments_have_lines (lines : list (string * string)) :
  Forall2 has_line (map segment_of lines) lines.
Proof.
  induction lines; simpl; constructor; [split; reflexivity|assumption].
Qed.

(** Entries A1, A1, B2, A1: the repeated neighbour goes, the later A1
    stays. *)
Lemma summary_entries_no_adjacent_duplicates_witness :
  Forall2 has_instruction
    (map step_of [instr_number "A1"; instr_number "A1";
                  instr_number "B2"; instr_number "A1"])
    [instr_number "A1"; instr_number "A1";
     instr_number "B2"; instr_number "A1"] /\
  exists names,
    vehicle_road_names
      (map step_of [instr_number "A1"; instr_number "A1";
                    instr_number "B2"; instr_number "A1"]) = Ok names /\
    no_adjacent_equal names.
Proof.
  split; [apply steps_have_instructions|].
  destruct (summary_entries_no_adjacent_duplicates
              _ _ (steps_have_instructions
                     [instr_number "A1"; instr_number "A1";
                      instr_number "B2"; instr_number "A1"]))
    as [[names [Hn [_ [Hd _]]]] _].
  exists names. split; assumption.
Defined.

Lemma vehicle_summary_entries_witness :
  Forall2 has_instruction
    (map step_of [instr_number_street; instr_plain; instr_number "B2"])
    [instr_number_street; instr_plain; instr_number "B2"] /\
  _get_route_from_vehicle_maneuver
    (map step_of [instr_number_street; instr_plain; instr_number "B2"])
  = Ok "A1 - Main St; B2".
Proof.
  split; [apply steps_have_instructions|].
  destruct (vehicle_summary_entries
              _ _ (steps_have_instructions
                     [instr_number_street; instr_plain; instr_number "B2"]))
    as [H _].
  rewrite H. vm_compute. reflexivity.
Defined.

Lemma vehicle_street_without_number_skipped_witness :
  PyStr.occurs street_open (instr_street "Main St") /\
  ~ PyStr.occurs number_open (instr_street "Main St") /\
  _get_route_from_vehicle_maneuver
    [step_of (instr_number "A1"); step_of (instr_street "Main St")]
  = _get_route_from_vehicle_maneuver [step_of (instr_number "A1")].
Proof.
  assert (Hs : PyStr.occurs street_open (instr_street "Main St"))
    by (apply contains_occurs; vm_compute; reflexivity).
  assert (Hn : ~ PyStr.occurs number_open (instr_street "Main St"))
    by (apply contains_false; vm_compute; reflexivity).
  split; [exact Hs|]. split; [exact Hn|].
  destruct (vehicle_street_without_number_skipped
              (step_of (instr_street "Main St")) _ eq_refl Hs Hn)
    as [_ [_ [_ H]]].
  exact (H [step_of (instr_number "A1")] []).
Defined.

(** C8 as stated fails: the span of [instr_unclosed] is malformed, its
    closing tag is missing, and the step still contributes an entry. *)
Lemma unclosed_span_still_emitted :
  PyStr.contains span_close instr_unclosed = false /\
  _get_route_from_non_vehicle_maneuver [step_of instr_unclosed]
  = Ok "Main St" /\
  ~ (_get_route_from_non_vehicle_maneuver [step_of instr_unclosed]
     = _get_route_from_non_vehicle_maneuver []).
Proof.
  split; [vm_compute; reflexivity|].
  split; [vm_compute; reflexivity|].
  vm_compute. discriminate.
Qed.

Lemma public_transport_summary_witness :
  Forall2 has_line (map segment_of [("U1", "X"); ("U1", "X"); ("S7", "Y")])
    [("U1", "X"); ("U1", "X"); ("S7", "Y")] /\
  _get_route_from_public_transport_line
    (map segment_of [("U1", "X"); ("U1", "X"); ("S7", "Y")])
  = Ok "U1 - X; U1 - X; S7 - Y".
Proof.
  split; [apply segments_have_lines|].
  destruct (public_transport_summary
              _ _ (segments_have_lines [("U1", "X"); ("U1", "X"); ("S7", "Y")]))
    as [_ [_ [H _]]].
  exact H.
Defined.

(** ** The error classifier *)

Lemma class_of_subtype_cases (subtype : json) :
  class_of_subtype subtype =
  if eq_str subtype "InvalidInputData" then Some InvalidInputDataError
  else if eq_str subtype "WaypointNotFound" then Some WaypointNotFoundError
  else if eq_str subtype "NoRouteFound" then Some NoRouteFoundError
  else if eq_str subtype "LinkIdNotFound" then Some LinkIdNotFoundError
  else if eq_str subtype "RouteNotReconstructed"
       then Some RouteNotReconstructedError
  else None.
Proof.
  destruct subtype; try reflexivity.
  unfold class_of_subtype, eq_str, subtype_table. cbn [table_lookup].
  repeat match goal with
         | |- context [String.eqb ?a s] =>
             rewrite (String.eqb_sym a s); destruct (String.eqb s a)
         end; reflexivity.
Qed.

(** C2, as the code has it: a payload whose [error] is Unauthorized gives
    [InvalidCredentialsError] with its [error_description], before
    [subtype] is looked at; otherwise a payload with [subtype] and
    [details] gives the class the table has for the subtype, with the
    details, or the generic error when the table has none; a payload
    without [subtype] gives the generic error, which names only the calling
    function.  A payload that lacks the description or the details the
    classifier reads makes it raise [KeyError]. *)
Theorem classifier_precedence
  (caller : string) (json_data : list (string * json)) :
  (forall description,
      unauthorized json_data = true ->
      assoc "error_description" json_data = Some description ->
      error_from_routing_service_error caller json_data
      = Ok (mk_here_error InvalidCredentialsError description)) /\
  (forall subtype details,
      unauthorized json_data = false ->
      assoc "subtype" json_data = Some subtype ->
      assoc "details" json_data = Some details ->
      error_from_routing_service_error caller json_data
      = Ok (match class_of_subtype subtype with
            | Some c => mk_here_error c details
            | None => generic_error caller
            end)) /\
  (unauthorized json_data = false ->
   assoc "subtype" json_data = None ->
   error_from_routing_service_error caller json_data
   = Ok (generic_error caller)) /\
  (unauthorized json_data = true ->
   assoc "error_description" json_data = None ->
   error_from_routing_service_error caller json_data
   = Raise (KeyError "error_description")) /\
  (unauthorized json_data = false ->
   assoc "subtype" json_data <> None ->
   assoc "details" json_data = None ->
   error_from_routing_service_error caller json_data
   = Raise (KeyError "details")).
Proof.
  unfold unauthorized, error_from_routing_service_error, has_key, getitem,
    generic_error.
  repeat split.
  - intros description Hu Hd.
    destruct (assoc "error" json_data) as [err|]; [|discriminate].
    simpl. rewrite Hu, Hd. reflexivity.
  - intros subtype details Hu Hs Hd. rewrite Hs, Hd.
    rewrite class_of_subtype_cases.
    destruct (assoc "error" json_data) as [err|]; simpl; try rewrite Hu;
      repeat match goal with
             | |- context [eq_str subtype ?a] => destruct (eq_str subtype a)
             end; reflexivity.
  - intros Hu Hs. rewrite Hs.
    destruct (assoc "error" json_data) as [err|]; simpl; try rewrite Hu;
      reflexivity.
  - intros Hu Hd.
    destruct (assoc "error" json_data) as [err|]; [|discriminate].
    simpl. rewrite Hu, Hd. reflexivity.
  - intros Hu Hs Hd.
    destruct (assoc "subtype" json_data) as [subtype|]; [|congruence].
    rewrite Hd.
    destruct (assoc "error" json_data) as [err|]; simpl; try rewrite Hu;
      reflexivity.
Qed.

(** The two payloads the specification classifies. *)
Example classifier_examples :
  error_from_routing_service_error "__get"
    [("error", JStr "Unauthorized"); ("error_description", JStr "bad key")]
  = Ok (mk_here_error InvalidCredentialsError (JStr "bad key")) /\
  error_from_routing_service_error "__get"
    [("subtype", JStr "NoRouteFound"); ("details", JStr "...")]
  = Ok (mk_here_error NoRouteFoundError (JStr "...")) /\
  error_from_routing_service_error "__get"
    [("error", JStr "Unauthorized"); ("error_description", JStr "bad key");
     ("subtype", JStr "NoRouteFound"); ("details", JStr "...")]
  = Ok (mk_here_error InvalidCredentialsError (JStr "bad key")).
Proof. repeat split. Qed.

(** C2 as stated fails: a payload with an unknown [subtype] and no
    [details] is not classified as generic; the classifier raises. *)
Lemma classifier_unknown_subtype_raises :
  error_from_routing_service_error "__get" [("subtype", JStr "Unknown")]
  = Raise (KeyError "details") /\
  ~ (error_from_routing_service_error "__get" [("subtype", JStr "Unknown")]
     = Ok (generic_error "__get")).
Proof. split; [reflexivity|]. vm_compute. discriminate. Qed.

(** ** The route request *)


Lemma only_geocoded_trans (w1 w2 w3 : world) :
  only_geocoded w1 w2 -> only_geocoded w2 w3 -> only_geocoded w1 w3.
Proof.
  intros [n1 ->] [n2 ->]. exists (n1 ++ n2)%list. simpl.
  now rewrite map_app, app_assoc.
Qed.




Lemma quiet_bind {A B} (c : M A) (k : A -> M B) :
  quiet c -> (forall a, quiet (k a)) -> quiet (bind c k).
Proof.
  intros Hc Hk w. unfold bind.
  destruct (Hc w) as [o [w1 [-> [Hg Ho]]]].
  destruct o as [a|e|]; [|exists (Raised e), w1; now repeat split|congruence].
  destruct (Hk a w1) as [o2 [w2 [-> [Hg2 Ho2]]]].
  exists o2, w2. repeat split; [|assumption].
  eapply only_geocoded_trans; eauto.
Qed.








(** ** The matrix request body *)

Lemma assoc_setitem_same (k : string) (v : json)
  (fields : list (string * json)) :
  assoc k (setitem k v fields) = Some v.
Proof.
  induction fields as [|[k' v'] fields IH]; simpl.
  - now rewrite String.eqb_refl.
  - destruct (String.eqb k k') eqn:Hk; simpl; rewrite ?String.eqb_refl, ?Hk;
      [reflexivity|exact IH].
Qed.

Lemma assoc_setitem_other (k k' : string) (v : json)
  (fields : list (string * json)) :
  k <> k' -> assoc k (setitem k' v fields) = assoc k fields.
Proof.
  intros Hne. induction fields as [|[k0 v0] fields IH]; simpl.
  - apply String.eqb_neq in Hne. now rewrite Hne.
  - destruct (String.eqb k' k0) eqn:Hk; simpl.
    + apply String.eqb_eq in Hk; subst k0.
      apply String.eqb_neq in Hne. now rewrite Hne.
    + destruct (String.eqb k k0); [reflexivity|exact IH].
Qed.

(** Waypoints given by coordinates become their objects, in order, and the
    world is left alone. *)
Lemma waypoint_loop_coordinates (E : env) (ps : list (json * json))
  (acc : list json) (w : world) :
  for_each_io (waypoint_step E) (map coordinates ps) acc w
  = (Done (acc ++ map lat_lng ps)%list, w).
Proof.
  revert acc; induction ps as [|p ps IH]; intros acc; simpl.
  - now rewrite app_nil_r.
  - unfold bind at 1. unfold waypoint_step at 1. simpl.
    unfold bind, ret, lift. simpl. fold (lat_lng p).
    rewrite IH, <- app_assoc. reflexivity.
Qed.

Lemma matrix_request_body_ok
  (matrix_type : enum_member) (c : json * json) (radius : json)
  (profile : option enum_member) (departure : option string)
  (routing_mode transport_mode : option enum_member)
  (matrix_attributes : option (list enum_member)) :
  exists body,
    matrix_request_body matrix_type (coordinates c) radius profile departure
      routing_mode transport_mode matrix_attributes = Ok body.
Proof. unfold matrix_request_body, coordinates. simpl. eauto. Qed.

(** What [sync_matrix] posts for waypoints given by coordinates: the
    objects of the origins, under [origins] and under [destinations]. *)
Lemma sync_matrix_posts_origins_twice
  (E : env) (caller : string) (ps qs : list (json * json))
  (matrix_type : enum_member) (c : json * json) (radius : json)
  (profile : option enum_member) (departure : option string)
  (routing_mode transport_mode : option enum_member)
  (matrix_attributes : option (list enum_member)) (w : world) :
  exists body,
    trace (snd (sync_matrix E caller (map coordinates ps) (map coordinates qs)
                  matrix_type (coordinates c) radius profile departure
                  routing_mode transport_mode matrix_attributes w))
    = (trace w
         ++ [EvPost (build_url E URL_CALCULATE_MATRIX
                       [("apiKey", api_key E); ("async", "false")])
               (JObj body)])%list /\
    assoc "origins" body = Some (JArr (map lat_lng ps)) /\
    assoc "destinations" body = Some (JArr (map lat_lng ps)).
Proof.
  destruct (matrix_request_body_ok matrix_type c radius profile departure
              routing_mode transport_mode matrix_attributes) as [body0 Hb].
  exists (setitem "destinations" (JArr (map lat_lng ps))
            (setitem "origins" (JArr (map lat_lng ps)) body0)).
  split; [|split].
  - unfold sync_matrix. rewrite Hb. unfold bind at 1. unfold lift at 1.
    unfold ret at 1. unfold bind at 1. rewrite waypoint_loop_coordinates.
    unfold bind at 1. rewrite waypoint_loop_coordinates. simpl.
    unfold bind, requests_post.
    destruct (posts w) as [|r rest]; [reflexivity|].
    unfold lift, loads. destruct (content r) as [v|]; [|reflexivity].
    unfold ret. destruct (dict_get v "matrix") as [m|e]; [|reflexivity].
    simpl. destruct (is_none m); reflexivity.
  - rewrite assoc_setitem_other by discriminate. apply assoc_setitem_same.
  - apply assoc_setitem_same.
Qed.

(** [async_matrix] posts the objects of the destinations there. *)
Lemma async_matrix_posts_destinations
  (E : env) (caller : string) (ps qs : list (json * json))
  (matrix_type : enum_member) (c : json * json) (radius : json)
  (profile : option enum_member) (departure : option string)
  (routing_mode transport_mode : option enum_member)
  (matrix_attributes : option (list enum_member)) (w : world) :
  exists body rest,
    trace (snd (async_matrix E caller (map coordinates ps)
                  (map coordinates qs) matrix_type (coordinates c) radius
                  profile departure routing_mode transport_mode
                  matrix_attributes (mk_world (trace w) (gets w) [])))
    = (trace w
         ++ EvPost (build_url E URL_CALCULATE_MATRIX [("apiKey", api_key E)])
              (JObj body) :: rest)%list /\
    assoc "origins" body = Some (JArr (map lat_lng ps)) /\
    assoc "destinations" body = Some (JArr (map lat_lng qs)).
Proof.
  destruct (matrix_request_body_ok matrix_type c radius profile departure
              routing_mode transport_mode matrix_attributes) as [body0 Hb].
  exists (setitem "destinations" (JArr (map lat_lng qs))
            (setitem "origins" (JArr (map lat_lng ps)) body0)), [].
  split; [|split].
  - unfold async_matrix. rewrite Hb. unfold bind at 1. unfold lift at 1.
    unfold ret at 1. unfold bind at 1. rewrite waypoint_loop_coordinates.
    unfold bind at 1. rewrite waypoint_loop_coordinates. simpl.
    reflexivity.
  - rewrite assoc_setitem_other by discriminate. apply assoc_setitem_same.
  - apply assoc_setitem_same.
Qed.

(** C6 fails on the code: with one origin and a different destination,
    [sync_matrix] posts the origin under [destinations]. *)
Theorem sync_matrix_destinations_from_origins :
  trace (snd (sync_matrix demo_env "main"
                [coordinates (JFloat 52.5%float, JFloat 13.5%float)]
                [coordinates (JFloat 48.0%float, JFloat 11.5%float)]
                (mk_enum_member "circle")
                (coordinates (JFloat 50.0%float, JFloat 12.5%float))
                (JInt 10000) None None None None None empty_world))
  = [EvPost URL_CALCULATE_MATRIX
       (JObj
          [("regionDefinition",
            JObj [("type", JStr "circle");
                  ("center", JObj [("lat", JFloat 50.0%float);
                                   ("lng", JFloat 12.5%float)]);
                  ("radius", JInt 10000)]);
           ("origins",
            JArr [JObj [("lat", JFloat 52.5%float);
                        ("lng", JFloat 13.5%float)]]);
           ("destinations",
            JArr [JObj [("lat", JFloat 52.5%float);
                        ("lng", JFloat 13.5%float)]])])].
Proof. vm_compute. reflexivity. Qed.

(** ** The poll loop *)

Lemma world_eta (w : world) : mk_world (trace w) (gets w) (posts w) = w.
Proof. now destruct w. Qed.

Section PollSteps.

Variable url : string.
Variable check : response -> exc json.
Variable step : Z.

Lemma poll_step_continue (n : nat) (w : world) (r : response)
  (rest : list response) (v : json) :
  gets w = r :: rest -> check r = Ok v -> truthy v = false ->
  poll (S n) (requests_get url) check step w
  = poll n (requests_get url) check step
      (mk_world (trace w ++ [EvGet url; EvSleep step]) rest (posts w)).
Proof.
  intros Hg Hc Ht. cbn [poll]. unfold bind at 1. unfold requests_get at 1.
  rewrite Hg. unfold bind at 1. rewrite Hc. unfold lift, ret.
  rewrite Ht. unfold bind, emit. simpl. now rewrite <- app_assoc.
Qed.

Lemma poll_step_done (n : nat) (w : world) (r : response)
  (rest : list response) (v : json) :
  gets w = r :: rest -> check r = Ok v -> truthy v = true ->
  poll (S n) (requests_get url) check step w
  = (Done r, mk_world (trace w ++ [EvGet url]) rest (posts w)).
Proof.
  intros Hg Hc Ht. cbn [poll]. unfold bind at 1. unfold requests_get at 1.
  rewrite Hg. unfold bind at 1. rewrite Hc. unfold lift, ret.
  now rewrite Ht.
Qed.

Lemma poll_step_raise (n : nat) (w : world) (r : response)
  (rest : list response) (e : exn) :
  gets w = r :: rest -> check r = Raise e ->
  poll (S n) (requests_get url) check step w
  = (Raised e, mk_world (trace w ++ [EvGet url]) rest (posts w)).
Proof.
  intros Hg Hc. cbn [poll]. unfold bind at 1. unfold requests_get at 1.
  rewrite Hg. unfold bind at 1. now rewrite Hc.
Qed.

End PollSteps.

Lemma running_not_done (r : response) :
  running r -> __is_correct_response r = Ok (JBool false).
Proof.
  intros [Hs [d [m [s [Hc [Hm Hst]]]]]].
  unfold __is_correct_response, loads. rewrite Hc, Hs. simpl.
  now rewrite Hm, Hst.
Qed.

Lemma redirected_done (r : response) :
  redirected r ->
  exists d, __is_correct_response r = Ok d /\ truthy d = true.
Proof.
  intros [Hs [d [Hc Ht]]]. exists d.
  unfold __is_correct_response, loads. rewrite Hc, Hs. simpl. now split.
Qed.

Lemma auth_failure_raises (r : response) (code description : string) :
  auth_failure r code description ->
  __is_correct_response r
  = Raise (Here HEREError
             (JStr ("Error occured on __is_correct_response: " ++ code
                    ++ ", description: " ++ description))).
Proof.
  intros [Hs [d [Hc [He Hd]]]].
  unfold __is_correct_response, loads. rewrite Hc. simpl.
  rewrite He, Hd. destruct Hs as [-> | ->]; reflexivity.
Qed.

(** Polls that find the job running are repeated after a pause. *)
Lemma poll_pending (url : string) (pending rest : list response) (n : nat)
  (w : world) :
  Forall running pending ->
  gets w = (pending ++ rest)%list ->
  poll (length pending + n) (requests_get url) __is_correct_response 5 w
  = poll n (requests_get url) __is_correct_response 5
      (mk_world (trace w ++ poll_events url (length pending)) rest (posts w)).
Proof.
  intros Hp. revert w. induction Hp as [|r pending Hr _ IH]; intros w Hg.
  - simpl in *. rewrite app_nil_r, <- Hg. now rewrite world_eta.
  - simpl in Hg. cbn [length Nat.add].
    rewrite (poll_step_continue _ _ _ _ _ _ _ _ Hg (running_not_done _ Hr)
               eq_refl).
    rewrite IH by reflexivity. simpl. now rewrite <- app_assoc.
Qed.

Lemma poll_status_pending (url : string) (pending : list response)
  (r : response) (rest : list response) (w : world) :
  Forall running pending ->
  gets w = (pending ++ r :: rest)%list ->
  poll_status url w
  = poll (S (S (length rest))) (requests_get url) __is_correct_response 5
      (mk_world (trace w ++ poll_events url (length pending)) (r :: rest)
         (posts w)).
Proof.
  intros Hp Hg. unfold poll_status.
  replace (S (length (gets w))) with (length pending + S (S (length rest)))
    by (rewrite Hg, length_app; simpl; lia).
  now apply poll_pending.
Qed.

(** The loop ends with the first response of status 303. *)
Lemma poll_status_redirected (url : string) (pending : list response)
  (r : response) (rest : list response) (w : world) :
  Forall running pending -> redirected r ->
  gets w = (pending ++ r :: rest)%list ->
  poll_status url w
  = (Done r,
     mk_world (trace w ++ poll_events url (length pending) ++ [EvGet url])
       rest (posts w)).
Proof.
  intros Hp Hr Hg. rewrite (poll_status_pending _ _ _ _ _ Hp Hg).
  destruct (redirected_done _ Hr) as [d [Hc Ht]].
  erewrite poll_step_done; [|reflexivity|exact Hc|exact Ht]. simpl.
  now rewrite <- app_assoc.
Qed.

(** The loop ends with the first response of status 401 or 403. *)
Lemma poll_status_auth_failure (url : string) (pending : list response)
  (r : response) (rest : list response) (code description : string)
  (w : world) :
  Forall running pending -> auth_failure r code description ->
  gets w = (pending ++ r :: rest)%list ->
  poll_status url w
  = (Raised (Here HEREError
               (JStr ("Error occured on __is_correct_response: " ++ code
                      ++ ", description: " ++ description))),
     mk_world (trace w ++ poll_events url (length pending) ++ [EvGet url])
       rest (posts w)).
Proof.
  intros Hp Hr Hg. rewrite (poll_status_pending _ _ _ _ _ Hp Hg).
  erewrite poll_step_raise;
    [|reflexivity|exact (auth_failure_raises _ _ _ Hr)]. simpl.
  now rewrite <- app_assoc.
Qed.

(** What is left of [async_matrix] once the provider has accepted a job
    whose waypoints were given by coordinates: the poll loop, then the
    handling of its result. *)
Lemma async_matrix_accepted
  (E : env) (caller : string) (ps qs : list (json * json))
  (matrix_type : enum_member) (c : json * json) (radius : json)
  (profile : option enum_member) (departure : option string)
  (routing_mode transport_mode : option enum_member)
  (matrix_attributes : option (list enum_member))
  (w : world) (r0 : response) (later : list response) (status_url : string) :
  posts w = r0 :: later -> accepted r0 status_url ->
  exists body,
    assoc "destinations" body = Some (JArr (map lat_lng qs)) /\
    async_matrix E caller (map coordinates ps) (map coordinates qs)
      matrix_type (coordinates c) radius profile departure routing_mode
      transport_mode matrix_attributes w
    = bind (poll_status (build_url E status_url [("apiKey", api_key E)]))
        (after_polling E caller)
        (mk_world
           (trace w
              ++ [EvPost
                    (build_url E URL_CALCULATE_MATRIX
                       [("apiKey", api_key E)]) (JObj body)])
           (gets w) later).
Proof.
  intros Hposts [Hs [d [m [s [Hc [Hm [Hst Hu]]]]]]].
  destruct (matrix_request_body_ok matrix_type c radius profile departure
              routing_mode transport_mode matrix_attributes) as [body0 Hb].
  exists (setitem "destinations" (JArr (map lat_lng qs))
            (setitem "origins" (JArr (map lat_lng ps)) body0)).
  split; [apply assoc_setitem_same|].
  unfold async_matrix. rewrite Hb. unfold bind at 1. unfold lift at 1.
  unfold ret at 1. unfold bind at 1. rewrite waypoint_loop_coordinates.
  unfold bind at 1. rewrite waypoint_loop_coordinates. simpl.
  unfold bind at 1. unfold requests_post at 1. rewrite Hposts, Hs. simpl.
  unfold bind at 1. unfold loads. rewrite Hc. unfold lift at 1, ret at 1.
  unfold bind at 1. rewrite Hm. unfold lift at 1, ret at 1.
  unfold bind at 1. rewrite Hst. unfold lift at 1, ret at 1.
  unfold bind at 1. rewrite Hu. unfold lift at 1, ret at 1.
  unfold bind at 1. simpl. reflexivity.
Qed.

(** Handling the result of the loop sends nothing and reads nothing. *)
Lemma after_polling_world (E : env) (caller : string) (r : response)
  (w : world) :
  snd (after_polling E caller r w) = w.
Proof.
  unfold after_polling, except_any, bind, lift, loads, ret, raise.
  destruct (content r) as [d|]; [|reflexivity].
  destruct (getitem d "matrixId"); [|reflexivity].
  destruct (getitem d "status") as [st|]; [|reflexivity].
  destruct (eq_str st "completed").
  - destruct (getitem d "resultUrl") as [u|]; [|reflexivity].
    destruct (as_str_operand u); reflexivity.
  - destruct (getitem d "error") as [err|]; [|reflexivity].
    destruct (truthy err); reflexivity.
Qed.

Lemma gets_sent_app (url : string) (a b : list event) :
  gets_sent url (a ++ b) = gets_sent url a + gets_sent url b.
Proof. unfold gets_sent. now rewrite filter_app, length_app. Qed.

Lemma posts_sent_app (a b : list event) :
  posts_sent (a ++ b) = posts_sent a + posts_sent b.
Proof. unfold posts_sent. now rewrite filter_app, length_app. Qed.

Lemma gets_sent_poll_events (url : string) (k : nat) :
  gets_sent url (poll_events url k) = k.
Proof.
  unfold gets_sent. induction k as [|k IH]; simpl; [reflexivity|].
  rewrite String.eqb_refl. simpl. now rewrite IH.
Qed.

Lemma posts_sent_poll_events (url : string) (k : nat) :
  posts_sent (poll_events url k) = 0.
Proof. unfold posts_sent. induction k as [|k IH]; simpl; [reflexivity|exact IH]. Qed.

Lemma gets_sent_post (url u : string) (b : json) (t : list event) :
  gets_sent url (EvPost u b :: t) = gets_sent url t.
Proof. reflexivity. Qed.

Lemma gets_sent_one (url : string) : gets_sent url [EvGet url] = 1.
Proof. unfold gets_sent. simpl. now rewrite String.eqb_refl. Qed.

Lemma posts_sent_post (u : string) (b : json) (t : list event) :
  posts_sent (EvPost u b :: t) = S (posts_sent t).
Proof. reflexivity. Qed.

Lemma posts_sent_get (u : string) : posts_sent [EvGet u] = 0.
Proof. reflexivity. Qed.

(** C7: a poll answered with status 401 or 403 ends the loop at once, on
    the first poll as on a later one: [async_matrix] raises the error that
    carries the provider's error code and description, and the responses
    that were still to come are never asked for. *)
Theorem auth_failure_ends_polling
  (E : env) (caller : string) (ps qs : list (json * json))
  (matrix_type : enum_member) (c : json * json) (radius : json)
  (profile : option enum_member) (departure : option string)
  (routing_mode transport_mode : option enum_member)
  (matrix_attributes : option (list enum_member))
  (w : world) (r0 : response) (later : list response) (status_url : string)
  (pending : list response) (r : response) (rest : list response)
  (code description : string) :
  posts w = r0 :: later -> accepted r0 status_url ->
  Forall running pending -> auth_failure r code description ->
  gets w = (pending ++ r :: rest)%list ->
  let poll_url := build_url E status_url [("apiKey", api_key E)] in
  exists body w',
    async_matrix E caller (map coordinates ps) (map coordinates qs)
      matrix_type (coordinates c) radius profile departure routing_mode
      transport_mode matrix_attributes w
    = (Raised (Here HEREError
                 (JStr ("Error occured on __is_correct_response: " ++ code
                        ++ ", description: " ++ description))), w') /\
    trace w'
    = (trace w
         ++ EvPost (build_url E URL_CALCULATE_MATRIX [("apiKey", api_key E)])
              (JObj body)
         :: poll_events poll_url (length pending) ++ [EvGet poll_url])%list /\
    gets w' = rest /\
    gets_sent poll_url (trace w')
    = gets_sent poll_url (trace w) + length pending + 1.
Proof.
  intros Hposts Hacc Hp Hr Hg poll_url.
  destruct (async_matrix_accepted E caller ps qs matrix_type c radius profile
              departure routing_mode transport_mode matrix_attributes
              w r0 later status_url Hposts Hacc) as [body [_ Hrun]].
  exists body. eexists. rewrite Hrun. unfold bind.
  erewrite poll_status_auth_failure; [|exact Hp|exact Hr|exact Hg].
  split; [reflexivity|]. simpl. fold poll_url.
  rewrite <- !app_assoc. simpl. repeat split.
  rewrite gets_sent_app, gets_sent_post, gets_sent_app,
    gets_sent_poll_events, gets_sent_one. lia.
Qed.

Lemma r_accepted_accepted : accepted r_accepted "https://status".
Proof.
  split; [reflexivity|].
  exists (job_body "accepted"), (JStr "m1"), (JStr "accepted").
  repeat split.
Qed.

Lemma r_running_running : running r_running.
Proof.
  split; [reflexivity|].
  exists (job_body "inProgress"), (JStr "m1"), (JStr "inProgress").
  repeat split.
Qed.

(** The first poll is refused: one GET, and the response scripted after it
    is still there. *)
Lemma auth_failure_ends_polling_witness :
  accepted r_accepted "https://status" /\
  auth_failure r_unauthorized "Unauthorized" "bad key" /\
  exists w',
    demo_async [r_unauthorized; r_running]
    = (Raised (Here HEREError
                 (JStr ("Error occured on __is_correct_response: "
                        ++ "Unauthorized" ++ ", description: " ++ "bad key"))),
       w') /\
    gets w' = [r_running] /\
    gets_sent "https://status" (trace w') = 1.
Proof.
  assert (Ha : auth_failure r_unauthorized "Unauthorized" "bad key").
  { split; [now left|]. eexists. repeat split. }
  split; [exact r_accepted_accepted|]. split; [exact Ha|].
  destruct (auth_failure_ends_polling demo_env "main"
              [(JInt 1, JInt 2)] [(JInt 3, JInt 4)]
              (mk_enum_member "circle") (JInt 0, JInt 0) (JInt 10000)
              None None None None None
              (mk_world [] [r_unauthorized; r_running] [r_accepted])
              r_accepted [] "https://status" [] r_unauthorized [r_running]
              "Unauthorized" "bad key"
              eq_refl r_accepted_accepted (Forall_nil _) Ha eq_refl)
    as [body [w' [Hrun [_ [Hg Hn]]]]].
  exists w'. repeat split; assumption.
Defined.

(** C1, as the code has it: a poll answered with status 200 and a job
    report (a body with [matrixId] and [status]) finds the job unfinished
    and is repeated after a pause of five seconds; the first poll answered
    with status 303 and a body whose truth value is true ends the loop,
    which returns that response.  With [k] polls of the first kind before
    it, [async_matrix], called with waypoints given by coordinates and
    once its submission is accepted, has sent one POST, then [k] polls each
    followed by a pause, then the poll that ended the loop; what it does
    next sends no POST and polls no more. *)
Theorem redirect_ends_polling
  (E : env) (caller : string) (ps qs : list (json * json))
  (matrix_type : enum_member) (c : json * json) (radius : json)
  (profile : option enum_member) (departure : option string)
  (routing_mode transport_mode : option enum_member)
  (matrix_attributes : option (list enum_member))
  (w : world) (r0 : response) (later : list response) (status_url : string)
  (pending : list response) (r : response) (rest : list response) :
  posts w = r0 :: later -> accepted r0 status_url ->
  Forall running pending -> redirected r ->
  gets w = (pending ++ r :: rest)%list ->
  let poll_url := build_url E status_url [("apiKey", api_key E)] in
  let post_url := build_url E URL_CALCULATE_MATRIX [("apiKey", api_key E)] in
  exists body o w' tail,
    async_matrix E caller (map coordinates ps) (map coordinates qs)
      matrix_type (coordinates c) radius profile departure routing_mode
      transport_mode matrix_attributes w
    = (o, w') /\
    poll_status poll_url
      (mk_world (trace w ++ [EvPost post_url (JObj body)]) (gets w) later)
    = (Done r,
       mk_world
         (trace w
            ++ EvPost post_url (JObj body)
            :: poll_events poll_url (length pending) ++ [EvGet poll_url])
         rest later) /\
    trace w'
    = (trace w
         ++ EvPost post_url (JObj body)
         :: poll_events poll_url (length pending)
         ++ EvGet poll_url :: tail)%list /\
    Forall (no_poll_no_post poll_url) tail /\
    gets_sent poll_url (trace w')
    = gets_sent poll_url (trace w) + length pending + 1 /\
    posts_sent (trace w') = posts_sent (trace w) + 1.
Proof.
  intros Hposts Hacc Hp Hr Hg poll_url post_url.
  destruct (async_matrix_accepted E caller ps qs matrix_type c radius profile
              departure routing_mode transport_mode matrix_attributes
              w r0 later status_url Hposts Hacc) as [body [_ Hrun]].
  fold poll_url post_url in Hrun.
  pose proof (poll_status_redirected poll_url pending r rest
                (mk_world (trace w ++ [EvPost post_url (JObj body)])
                   (gets w) later) Hp Hr Hg) as Hpoll.
  simpl in Hpoll. rewrite <- app_assoc in Hpoll. simpl in Hpoll.
  exists body.
  destruct (after_polling E caller r
              (mk_world
                 (trace w
                    ++ EvPost post_url (JObj body)
                    :: poll_events poll_url (length pending)
                    ++ [EvGet poll_url]) rest later)) as [o w'] eqn:Hafter.
  pose proof (after_polling_world E caller r
                (mk_world
                   (trace w
                      ++ EvPost post_url (JObj body)
                      :: poll_events poll_url (length pending)
                      ++ [EvGet poll_url]) rest later)) as Hw.
  rewrite Hafter in Hw. simpl in Hw. subst w'.
  exists o. eexists. exists [].
  split; [|split; [exact Hpoll|]].
  - rewrite Hrun. unfold bind. rewrite Hpoll. exact Hafter.
  - simpl. repeat split.
    + constructor.
    + rewrite gets_sent_app, gets_sent_post, gets_sent_app,
        gets_sent_poll_events, gets_sent_one. lia.
    + rewrite posts_sent_app, posts_sent_post, posts_sent_app,
        posts_sent_poll_events, posts_sent_get. lia.
Qed.

(** Two polls find the job running, the third is answered with status 303:
    three GETs of the status URL and one POST. *)
Lemma redirect_ends_polling_witness :
  Forall running [r_running; r_running] /\
  redirected (r_redirect "completed") /\
  gets_sent "https://status"
    (trace (snd (demo_async [r_running; r_running; r_redirect "completed";
                             r_running]))) = 3 /\
  posts_sent
    (trace (snd (demo_async [r_running; r_running; r_redirect "completed";
                             r_running]))) = 1.
Proof.
  assert (Hp : Forall running [r_running; r_running])
    by (exact (Forall_cons _ r_running_running
                 (Forall_cons _ r_running_running (Forall_nil _)))).
  assert (Hr : redirected (r_redirect "completed")).
  { split; [reflexivity|]. eexists. split; reflexivity. }
  split; [exact Hp|]. split; [exact Hr|].
  destruct (redirect_ends_polling demo_env "main"
              [(JInt 1, JInt 2)] [(JInt 3, JInt 4)]
              (mk_enum_member "circle") (JInt 0, JInt 0) (JInt 10000)
              None None None None None
              (mk_world []
                 [r_running; r_running; r_redirect "completed"; r_running]
                 [r_accepted])
              r_accepted [] "https://status" [r_running; r_running]
              (r_redirect "completed") [r_running]
              eq_refl r_accepted_accepted Hp Hr eq_refl)
    as [body [o [w' [tail [Hrun [_ [_ [_ [Hg Hn]]]]]]]]].
  unfold demo_async. rewrite Hrun. simpl snd.
  split; [exact Hg|exact Hn].
Defined.

(** C1 as stated fails: of the responses 303, 303, 200 the first ends the
    loop; one poll is sent, not three, and the two later responses are
    never asked for. *)
Lemma redirect_is_not_polled_again :
  gets_sent "https://status"
    (trace (snd (demo_async [r_redirect "inProgress";
                             r_redirect "inProgress"; r_completed]))) = 1 /\
  gets (snd (demo_async [r_redirect "inProgress";
                         r_redirect "inProgress"; r_completed]))
  = [r_redirect "inProgress"; r_completed] /\
  ~ (gets_sent "https://status"
       (trace (snd (demo_async [r_redirect "inProgress";
                                r_redirect "inProgress"; r_completed]))) = 3).
Proof.
  split; [vm_compute; reflexivity|].
  split; [vm_compute; reflexivity|].
  vm_compute. discriminate.
Qed.

(** A response of status 200 never ends the loop, whatever status its body
    reports: after 200 with a completed job the loop asks again. *)
Example completed_with_200_is_polled_again :
  demo_async [r_completed]
  = (Starved,
     mk_world
       [EvPost URL_CALCULATE_MATRIX
          (JObj
             [("regionDefinition",
               JObj [("type", JStr "circle");
                     ("center", JObj [("lat", JInt 0); ("lng", JInt 0)]);
                     ("radius", JInt 10000)]);
              ("origins", JArr [JObj [("lat", JInt 1); ("lng", JInt 2)]]);
              ("destinations",
               JArr [JObj [("lat", JInt 3); ("lng", JInt 4)]])]);
        EvGet "https://status"; EvSleep 5; EvGet "https://status"]
       [] []).
Proof. vm_compute. reflexivity. Qed.

(* ================================================================= *)
(** * Further properties *)

(** ** The mode string *)

Lemma drop_last_app (a b : string) :
  b <> EmptyString -> drop_last (a ++ b) = a ++ drop_last b.
Proof.
  intros Hb. induction a as [|c a IH]; [reflexivity|].
  simpl. rewrite IH. destruct (a ++ b) eqn:Hab; [|reflexivity].
  destruct a; simpl in Hab; [congruence|discriminate].
Qed.

Lemma append_assoc (a b c : string) : (a ++ b) ++ c = a ++ b ++ c.
Proof. induction a; simpl; congruence. Qed.

Lemma append_empty_r (a : string) : a ++ EmptyString = a.
Proof. induction a; simpl; congruence. Qed.

Lemma fold_mode_values (f : RouteMode -> string) (ms : list RouteMode)
  (acc : string) :
  fold_left (fun mode_values mode => mode_values ++ f mode ++ ";") ms acc
  = acc ++ fold_right (fun mode rest => f mode ++ ";" ++ rest)
             EmptyString ms.
Proof.
  revert acc; induction ms as [|m ms IH]; intros acc; simpl.
  - now rewrite append_empty_r.
  - rewrite IH, !append_assoc. reflexivity.
Qed.

Lemma drop_last_modes (f : RouteMode -> string) (ms : list RouteMode) :
  drop_last (fold_right (fun mode rest => f mode ++ ";" ++ rest)
               EmptyString ms)
  = PyStr.join ";" (map f ms).
Proof.
  induction ms as [|m ms IH]; [reflexivity|].
  cbn [fold_right map]. destruct ms as [|m' ms].
  - simpl. rewrite drop_last_app by discriminate. simpl.
    now rewrite append_empty_r.
  - set (tail := fold_right (fun mode rest => f mode ++ ";" ++ rest)
                   EmptyString (m' :: ms)) in *.
    assert (Ht : tail <> EmptyString).
    { unfold tail. simpl. destruct (f m'); discriminate. }
    rewrite drop_last_app by (simpl; discriminate).
    rewrite (drop_last_app ";" tail Ht), IH. reflexivity.
Qed.

Lemma prepare_mode_values_Some (E : env) (ms : list RouteMode) :
  __prepare_mode_values E (Some ms)
  = Ok (PyStr.join ";" (map (mode_str E) ms)).
Proof.
  unfold __prepare_mode_values.
  rewrite fold_mode_values. simpl. now rewrite drop_last_modes.
Qed.

(** X1: the mode string is the modes' names joined with semicolons, with
    no semicolon at the end; the empty list gives the empty string and a
    missing list raises [TypeError]. *)
Theorem prepare_mode_values_join (E : env) (ms : list RouteMode) :
  __prepare_mode_values E (Some ms)
  = Ok (PyStr.join ";" (map (mode_str E) ms)) /\
  __prepare_mode_values E (Some []) = Ok EmptyString /\
  __prepare_mode_values E None = Raise TypeError.
Proof.
  split; [apply prepare_mode_values_Some|]. split; reflexivity.
Qed.

(** ** Parentheses in road names *)

Lemma partition_single (c : ascii) (s : string) :
  match PyStr.partition (String c EmptyString) s with
  | None => remove_char c s = s
  | Some (b, a) => remove_char c b = b /\ remove_char c s = b ++ remove_char c a
  end.
Proof.
  induction s as [|x s IH]; [reflexivity|].
  rewrite partition_unfold. cbn [PyStr.strip_prefix].
  rewrite Ascii.eqb_sym. cbn [remove_char].
  destruct (Ascii.eqb x c) eqn:Hx.
  - split; reflexivity.
  - destruct (PyStr.partition (String c EmptyString) s) as [[b a]|].
    + destruct IH as [Hb Hs]. cbn [remove_char]. rewrite Hx, Hb, Hs.
      split; reflexivity.
    + now rewrite IH.
Qed.

Lemma join_empty_split_fuel (c : ascii) (n : nat) (s : string) :
  String.length s < n ->
  PyStr.join EmptyString (PyStr.split_fuel n (String c EmptyString) s)
  = remove_char c s.
Proof.
  revert s; induction n as [|n IH]; intros s Hn; [lia|].
  cbn [PyStr.split_fuel]. generalize (partition_single c s).
  destruct (PyStr.partition (String c EmptyString) s) as [[b a]|] eqn:Hq;
    [|intros Hp; simpl; now rewrite Hp].
  intros [_ Hs].
  assert (Hlen : String.length a < String.length s)
    by (apply (partition_shorter (String c EmptyString) s b a);
        [discriminate|exact Hq]).
  assert (Hj : PyStr.join EmptyString
                 (PyStr.split_fuel n (String c EmptyString) a)
               = remove_char c a) by (apply IH; lia).
  destruct n as [|m]; [lia|].
  destruct (split_fuel_head m (String c EmptyString) a) as [rest Hr].
  rewrite Hr in *. simpl in *. now rewrite Hj, Hs.
Qed.

(** Replacing a character by nothing removes its occurrences. *)
Lemma replace_char_empty (c : ascii) (s : string) :
  PyStr.replace (String c EmptyString) EmptyString s = remove_char c s.
Proof. unfold PyStr.replace, PyStr.split. apply join_empty_split_fuel. lia. Qed.

Lemma strip_parens_remove (x : string) :
  strip_parens x = remove_char rparen (remove_char lparen x).
Proof.
  unfold strip_parens.
  change ")" with (String rparen EmptyString).
  change "(" with (String lparen EmptyString).
  now rewrite !replace_char_empty.
Qed.

Lemma has_char_remove_same (c : ascii) (s : string) :
  has_char c (remove_char c s) = false.
Proof.
  induction s as [|a s IH]; [reflexivity|]. simpl.
  destruct (Ascii.eqb a c) eqn:Ha; [exact IH|]. simpl. now rewrite Ha.
Qed.

Lemma has_char_remove_other (c d : ascii) (s : string) :
  has_char c s = false -> has_char c (remove_char d s) = false.
Proof.
  induction s as [|a s IH]; [reflexivity|]. simpl. intros H.
  apply orb_false_iff in H. destruct H as [Ha Hs].
  destruct (Ascii.eqb a d); [now apply IH|]. simpl. now rewrite Ha, IH.
Qed.

Lemma has_char_append (c : ascii) (a b : string) :
  has_char c (a ++ b) = has_char c a || has_char c b.
Proof. induction a as [|x a IH]; simpl; [reflexivity|]. now rewrite IH, orb_assoc. Qed.

Lemma strip_parens_clean (x : string) :
  has_char lparen (strip_parens x) = false /\
  has_char rparen (strip_parens x) = false.
Proof.
  rewrite strip_parens_remove. split.
  - apply has_char_remove_other, has_char_remove_same.
  - apply has_char_remove_same.
Qed.

Lemma span_text_clean (tag i t : string) :
  span_text tag i = Some t ->
  has_char lparen t = false /\ has_char rparen t = false.
Proof.
  unfold span_text. destruct (PyStr.partition tag i) as [[b a]|]; [|discriminate].
  intros H; inversion H. apply strip_parens_clean.
Qed.

Lemma Forall_dedup_from (P : string -> Prop) (prev : option string)
  (l : list string) :
  Forall P l -> Forall P (dedup_from prev l).
Proof.
  intros H. revert prev. induction H as [|x l Hx _ IH]; intros prev; simpl.
  - constructor.
  - destruct prev as [p|]; [destruct (String.eqb p x)|]; auto.
Qed.

Lemma Forall_entries (P : string -> Prop) (entry : string -> option string)
  (instrs : list string) :
  (forall i e, entry i = Some e -> P e) -> Forall P (entries entry instrs).
Proof.
  intros H. induction instrs as [|i instrs IH]; simpl; [constructor|].
  destruct (entry i) eqn:He; [constructor; eauto|exact IH].
Qed.

(** X2: no entry of the vehicle or of the non-vehicle summary contains a
    parenthesis: the two [replace] calls delete every opening and every
    closing parenthesis of a span. *)
Theorem road_names_without_parentheses
  (maneuver : list json) (instrs : list string) :
  Forall2 has_instruction maneuver instrs ->
  exists vehicle_names non_vehicle_names,
    vehicle_road_names maneuver = Ok vehicle_names /\
    non_vehicle_road_names maneuver = Ok non_vehicle_names /\
    Forall (fun name => has_char lparen name = false /\
                        has_char rparen name = false)
      (vehicle_names ++ non_vehicle_names)%list.
Proof.
  intros H. do 2 eexists.
  split; [exact (vehicle_road_names_entries _ _ H)|].
  split; [exact (non_vehicle_road_names_entries _ _ H)|].
  apply Forall_app. split; apply Forall_dedup_from, Forall_entries.
  - intros i e. unfold vehicle_entry.
    destruct (span_text number_open i) as [n|] eqn:Hn; [|discriminate].
    destruct (span_text_clean _ _ _ Hn) as [Hl Hr].
    destruct (span_text street_open i) as [st|] eqn:Hs.
    + destruct (span_text_clean _ _ _ Hs) as [Hl' Hr'].
      intros He; injection He as <-.
      rewrite !has_char_append. simpl. rewrite Hl, Hr, Hl', Hr'.
      split; reflexivity.
    + intros He; injection He as <-. now split.
  - intros i e He. exact (span_text_clean _ _ _ He).
Qed.

Lemma road_names_without_parentheses_witness :
  Forall2 has_instruction (map step_of [instr_number_street])
    [instr_number_street] /\
  has_char lparen instr_number_street = true /\
  exists names,
    vehicle_road_names (map step_of [instr_number_street]) = Ok names /\
    Forall (fun name => has_char lparen name = false /\
                        has_char rparen name = false) names.
Proof.
  split; [apply steps_have_instructions|]. split; [reflexivity|].
  destruct (road_names_without_parentheses
              _ _ (steps_have_instructions [instr_number_street]))
    as [v [n [Hv [_ Hc]]]].
  exists v. split; [exact Hv|].
  apply Forall_app in Hc. exact (proj1 Hc).
Defined.

(** ** Steps and segments that are not well formed *)

Lemma for_each_app {A S} (body : S -> A -> exc S) (xs ys : list A) (acc : S) :
  for_each body (xs ++ ys) acc
  = ebind (for_each body xs acc) (for_each body ys).
Proof.
  revert acc; induction xs as [|x xs IH]; intros acc; simpl; [reflexivity|].
  destruct (body acc x); simpl; [apply IH|reflexivity].
Qed.

Lemma for_each_raises {A S} (body : S -> A -> exc S) (x : A) (e : exn)
  (pre post : list A) (acc mid : S) :
  for_each body pre acc = Ok mid -> body mid x = Raise e ->
  for_each body (pre ++ x :: post) acc = Raise e.
Proof.
  intros Hpre Hx. rewrite for_each_app, Hpre. simpl. now rewrite Hx.
Qed.

(** X3: a step without the key [instruction] makes both maneuver
    summarizers raise the [KeyError] of the lookup, and a step whose
    instruction is not a string makes them raise [AttributeError]: only
    [IndexError] is handled. *)
Theorem summarizers_raise_on_bad_step
  (pre post : list json) (instrs : list string) (step : json) :
  Forall2 has_instruction pre instrs ->
  (forall e,
      getitem step "instruction" = Raise e ->
      _get_route_from_vehicle_maneuver (pre ++ step :: post) = Raise e /\
      _get_route_from_non_vehicle_maneuver (pre ++ step :: post) = Raise e) /\
  (forall v,
      getitem step "instruction" = Ok v ->
      (forall s, v <> JStr s) ->
      _get_route_from_vehicle_maneuver (pre ++ step :: post)
      = Raise AttributeError /\
      _get_route_from_non_vehicle_maneuver (pre ++ step :: post)
      = Raise AttributeError).
Proof.
  intros H.
  pose proof (vehicle_road_names_entries _ _ H) as Hv.
  pose proof (non_vehicle_road_names_entries _ _ H) as Hn.
  unfold vehicle_road_names in Hv. unfold non_vehicle_road_names in Hn.
  unfold _get_route_from_vehicle_maneuver, vehicle_road_names,
    _get_route_from_non_vehicle_maneuver, non_vehicle_road_names.
  split.
  - intros e He. split.
    + erewrite for_each_raises; [reflexivity|exact Hv|].
      unfold vehicle_step. now rewrite He.
    + erewrite for_each_raises; [reflexivity|exact Hn|].
      unfold non_vehicle_step. now rewrite He.
  - intros v Hv' Hs. split.
    + erewrite for_each_raises; [reflexivity|exact Hv|].
      unfold vehicle_step. rewrite Hv'. simpl.
      destruct v; try reflexivity. now destruct (Hs s).
    + erewrite for_each_raises; [reflexivity|exact Hn|].
      unfold non_vehicle_step. rewrite Hv'. simpl.
      destruct v; try reflexivity. now destruct (Hs s).
Qed.

Lemma summarizers_raise_on_bad_step_witness :
  Forall2 has_instruction (map step_of [instr_number "A1"])
    [instr_number "A1"] /\
  _get_route_from_vehicle_maneuver
    (map step_of [instr_number "A1"]
       ++ JObj [("position", JNull)] :: [step_of instr_plain])
  = Raise (KeyError "instruction") /\
  _get_route_from_non_vehicle_maneuver
    (map step_of [instr_number "A1"]
       ++ JObj [("instruction", JNull)] :: [])
  = Raise AttributeError.
Proof.
  split; [apply steps_have_instructions|].
  split.
  - destruct (summarizers_raise_on_bad_step
                (map step_of [instr_number "A1"]) [step_of instr_plain]
                [instr_number "A1"] (JObj [("position", JNull)])
                (steps_have_instructions [instr_number "A1"])) as [H _].
    exact (proj1 (H (KeyError "instruction") eq_refl)).
  - destruct (summarizers_raise_on_bad_step
                (map step_of [instr_number "A1"]) []
                [instr_number "A1"] (JObj [("instruction", JNull)])
                (steps_have_instructions [instr_number "A1"])) as [_ H].
    refine (proj2 (H JNull eq_refl _)). intros s; discriminate.
Defined.

(** X4: a segment without [lineName] or without [destination] makes the
    public-transport summarizer raise the [KeyError] of the lookup, and a
    name or destination that is not a string makes it raise
    [TypeError]. *)
Theorem transport_summary_raises_on_bad_segment
  (pre post : list json) (lines : list (string * string)) (seg : json) :
  Forall2 has_line pre lines ->
  (forall e,
      getitem seg "lineName" = Raise e ->
      _get_route_from_public_transport_line (pre ++ seg :: post) = Raise e) /\
  (forall v,
      getitem seg "lineName" = Ok v -> (forall s, v <> JStr s) ->
      _get_route_from_public_transport_line (pre ++ seg :: post)
      = Raise TypeError) /\
  (forall name e,
      getitem seg "lineName" = Ok (JStr name) ->
      getitem seg "destination" = Raise e ->
      _get_route_from_public_transport_line (pre ++ seg :: post) = Raise e) /\
  (forall name v,
      getitem seg "lineName" = Ok (JStr name) ->
      getitem seg "destination" = Ok v -> (forall s, v <> JStr s) ->
      _get_route_from_public_transport_line (pre ++ seg :: post)
      = Raise TypeError).
Proof.
  intros H. pose proof (for_each_lines _ _ [] H) as Hp.
  unfold _get_route_from_public_transport_line, transport_lines.
  repeat split.
  - intros e He. erewrite for_each_raises; [reflexivity|exact Hp|].
    unfold line_step. now rewrite He.
  - intros v Hv Hs. erewrite for_each_raises; [reflexivity|exact Hp|].
    unfold line_step. rewrite Hv. simpl.
    destruct v; try reflexivity. now destruct (Hs s).
  - intros name e Hn He. erewrite for_each_raises; [reflexivity|exact Hp|].
    unfold line_step. rewrite Hn. simpl. now rewrite He.
  - intros name v Hn Hv Hs. erewrite for_each_raises; [reflexivity|exact Hp|].
    unfold line_step. rewrite Hn. simpl. rewrite Hv. simpl.
    destruct v; try reflexivity. now destruct (Hs s).
Qed.

Lemma transport_summary_raises_on_bad_segment_witness :
  Forall2 has_line (map segment_of [("U1", "X")]) [("U1", "X")] /\
  _get_route_from_public_transport_line
    (map segment_of [("U1", "X")] ++ JObj [("lineName", JStr "U2")] :: [])
  = Raise (KeyError "destination").
Proof.
  split; [apply segments_have_lines|].
  destruct (transport_summary_raises_on_bad_segment
              (map segment_of [("U1", "X")]) [] [("U1", "X")]
              (JObj [("lineName", JStr "U2")])
              (segments_have_lines [("U1", "X")])) as [_ [_ [H _]]].
  exact (H "U2" (KeyError "destination") eq_refl eq_refl).
Defined.

(** ** The geocoder *)

(** X5: resolving a place name consults the geocoder once.  Any [HEREError]
    it raises, of whatever class, comes out as [WaypointNotFoundError] with
    the same message; the position of the first item found comes out as the
    pair of its latitude and longitude; an empty list of items is not
    handled and raises [IndexError]. *)
Theorem geocoder_lookup (E : env) (name : string) (w : world) :
  let w1 := mk_world (trace w ++ [EvGeocode name]) (gets w) (posts w) in
  (forall c msg,
      free_form E name = Raise (Here c msg) ->
      _get_coordinates_for_location_name E name w
      = (Raised (Here WaypointNotFoundError msg), w1)) /\
  (forall first rest pos lat lng,
      free_form E name = Ok (first :: rest) ->
      getitem first "position" = Ok pos ->
      getitem pos "lat" = Ok lat -> getitem pos "lng" = Ok lng ->
      _get_coordinates_for_location_name E name w
      = (Done (JArr [lat; lng]), w1)) /\
  (free_form E name = Ok [] ->
   _get_coordinates_for_location_name E name w = (Raised IndexError, w1)).
Proof.
  intros w1. unfold _get_coordinates_for_location_name, bind, emit.
  fold w1. repeat split.
  - intros c msg ->. reflexivity.
  - intros first rest pos lat lng -> Hp Hlat Hlng. simpl.
    unfold index. simpl. rewrite Hp. simpl. rewrite Hlat. simpl.
    now rewrite Hlng.
  - intros ->. reflexivity.
Qed.

(** ** The route request *)

Lemma route_request_prefix (E : env) (pa pb : json * json)
  (ms : list RouteMode) (departure arrival : option time_arg)
  (k : list (string * string) -> M RoutingResponse) (w : world) :
  (waypoint_a <- resolve_waypoint E (coordinates pa) ;;
   waypoint_b <- resolve_waypoint E (coordinates pb) ;;
   waypoint0 <- lift (__list_to_waypoint E waypoint_a) ;;
   waypoint1 <- lift (__list_to_waypoint E waypoint_b) ;;
   mode <- lift (__prepare_mode_values E (Some ms)) ;;
   k [("waypoint0", waypoint0); ("waypoint1", waypoint1);
      ("mode", mode); ("apikey", api_key E)])%io w
  = k (route_params E pa pb ms None None) w.
Proof.
  unfold bind, resolve_waypoint, coordinates, ret, lift, __list_to_waypoint.
  cbn -[__prepare_mode_values]. now rewrite prepare_mode_values_Some.
Qed.

(** X6: [__get] sends one GET to the URL built from the base URL and the
    parameters.  A body that does not decode raises [ValueError]; a body
    that is not a dict raises [AttributeError]; a dict with a [response]
    other than [None] is returned as the response object; any other dict
    goes to the error classifier, whose error is raised. *)
Theorem get_decoding_rule (E : env) (base_url : string)
  (data : list (string * string)) (w : world) (r : response)
  (rest : list response) :
  gets w = r :: rest ->
  let w1 := after_get (build_url E base_url data) rest w in
  (content r = None -> __get E base_url data w = (Raised ValueError, w1)) /\
  (forall v,
      content r = Some v -> (forall fields, v <> JObj fields) ->
      __get E base_url data w = (Raised AttributeError, w1)) /\
  (forall v,
      route_reply r v ->
      __get E base_url data w = (Done (mk_RoutingResponse v None), w1)) /\
  (forall fields e,
      error_reply r fields ->
      error_from_routing_service_error "__get" fields = Ok e ->
      __get E base_url data w = (Raised (Here (cls e) (message e)), w1)) /\
  (forall fields e,
      error_reply r fields ->
      error_from_routing_service_error "__get" fields = Raise e ->
      __get E base_url data w = (Raised e, w1)).
Proof.
  intros Hg w1. unfold __get, bind, requests_get. rewrite Hg.
  fold (after_get (build_url E base_url data) rest w). fold w1.
  unfold lift, loads. repeat split.
  - intros ->. reflexivity.
  - intros v -> Hv. destruct v; try reflexivity. now destruct (Hv fields).
  - intros v [fields [-> [Hr Hn]]]. simpl. rewrite Hr. simpl.
    rewrite Hn. simpl. unfold new_from_jsondict. simpl. now rewrite Hr.
  - intros fields e [-> Hr] He. simpl.
    destruct Hr as [-> | ->]; simpl; now rewrite He.
  - intros fields e [-> Hr] He. simpl.
    destruct Hr as [-> | ->]; simpl; now rewrite He.
Qed.

Lemma get_decoding_rule_witness :
  error_reply
    (mk_response 200
       (Some (JObj [("subtype", JStr "NoRouteFound");
                    ("details", JStr "no route")])))
    [("subtype", JStr "NoRouteFound"); ("details", JStr "no route")] /\
  __get demo_env URL_CALCULATE_ROUTE []
    (mk_world []
       [mk_response 200
          (Some (JObj [("subtype", JStr "NoRouteFound");
                       ("details", JStr "no route")]))] [])
  = (Raised (Here NoRouteFoundError (JStr "no route")),
     mk_world [EvGet URL_CALCULATE_ROUTE] [] []).
Proof.
  assert (He : error_reply
                 (mk_response 200
                    (Some (JObj [("subtype", JStr "NoRouteFound");
                                 ("details", JStr "no route")])))
                 [("subtype", JStr "NoRouteFound");
                  ("details", JStr "no route")])
    by (split; [reflexivity|now left]).
  split; [exact He|].
  destruct (get_decoding_rule demo_env URL_CALCULATE_ROUTE []
              (mk_world []
                 [mk_response 200
                    (Some (JObj [("subtype", JStr "NoRouteFound");
                                 ("details", JStr "no route")]))] [])
              _ _ eq_refl) as [_ [_ [_ [H _]]]].
  exact (H _ _ He eq_refl).
Defined.

(** A reply with a route comes back from [__get] as the response
    object. *)
Lemma route_get_reply (E : env) (base_url : string)
  (data : list (string * string)) (w : world) (r : response)
  (rest : list response) (v : json) :
  gets w = r :: rest -> route_reply r v ->
  __get E base_url data w
  = (Done (mk_RoutingResponse v None),
     after_get (build_url E base_url data) rest w) /\ True.
Proof.
  intros Hg [fields [Hc [Hr Hn]]]. split; [|exact I].
  unfold __get, bind, requests_get. rewrite Hg.
  unfold lift, loads. rewrite Hc. simpl. rewrite Hr. simpl. rewrite Hn.
  simpl. unfold new_from_jsondict. simpl. now rewrite Hr.
Qed.

(** What a route request for waypoints given by coordinates does when the
    reply has a route. *)
Lemma route_run (E : env) (pa pb : json * json)
  (ms : list RouteMode) (departure arrival : option time_arg)
  (w : world) (r : response) (rest : list response)
  (v route0 maneuver : json) (steps : list json) :
  departure = None \/ arrival = None ->
  gets w = r :: rest ->
  route_reply r v ->
  first_maneuver v route0 maneuver ->
  iterate maneuver = Ok steps ->
  let run := _route E (coordinates pa) (coordinates pb) (Some ms)
               departure arrival w in
  let w1 := after_get (build_url E URL_CALCULATE_ROUTE
                         (route_params E pa pb ms departure arrival))
              rest w in
  (forall s,
      any_mode_in [car; truck] ms = true ->
      _get_route_from_vehicle_maneuver steps = Ok s ->
      run = (Done (mk_RoutingResponse v (Some s)), w1)) /\
  (forall line segments s,
      any_mode_in [car; truck] ms = false ->
      any_mode_in [publicTransport; publicTransportTimeTable] ms = true ->
      getitem route0 "publicTransportLine" = Ok line ->
      iterate line = Ok segments ->
      _get_route_from_public_transport_line segments = Ok s ->
      run = (Done (mk_RoutingResponse v (Some s)), w1)) /\
  (forall s,
      any_mode_in [car; truck] ms = false ->
      any_mode_in [publicTransport; publicTransportTimeTable] ms = false ->
      any_mode_in [pedestrian; bicycle] ms = true ->
      _get_route_from_non_vehicle_maneuver steps = Ok s ->
      run = (Done (mk_RoutingResponse v (Some s)), w1)) /\
  (any_mode_in [car; truck] ms = false ->
   any_mode_in [publicTransport; publicTransportTimeTable] ms = false ->
   any_mode_in [pedestrian; bicycle] ms = false ->
   run = (Done (mk_RoutingResponse v None), w1)).
Proof.
  intros Htimes Hg Hreply Hman Hit run w1.
  destruct Hman as [route [leg [leg0 [Hroute [Hr0 [Hleg [Hl0 Hm]]]]]]].
  assert (Hget : forall data,
             __get E URL_CALCULATE_ROUTE data w
             = (Done (mk_RoutingResponse v None),
                after_get (build_url E URL_CALCULATE_ROUTE data) rest w)).
  { intros data.
    destruct (route_get_reply E URL_CALCULATE_ROUTE data w r rest v Hg Hreply)
      as [H _]. exact H. }
  assert (Hrun : run =
     (bind (__get E URL_CALCULATE_ROUTE
              (route_params E pa pb ms departure arrival))
        (fun response =>
           route <- lift (getitem (response_ response) "route") ;;
           maneuver <- lift (route0 <- getindex route 0 ;;
                             leg <- getitem route0 "leg" ;;
                             leg0 <- getindex leg 0 ;;
                             getitem leg0 "maneuver")%exc ;;
           if any_mode_in [car; truck] ms then
             short <- lift (steps <- iterate maneuver ;;
                            _get_route_from_vehicle_maneuver steps)%exc ;;
             ret (mk_RoutingResponse (response_ response) (Some short))
           else if any_mode_in [publicTransport; publicTransportTimeTable] ms
           then
             short <- lift (route0 <- getindex route 0 ;;
                            public_transport_line <-
                              getitem route0 "publicTransportLine" ;;
                            segments <- iterate public_transport_line ;;
                            _get_route_from_public_transport_line segments)%exc ;;
             ret (mk_RoutingResponse (response_ response) (Some short))
           else if any_mode_in [pedestrian; bicycle] ms then
             short <- lift (steps <- iterate maneuver ;;
                            _get_route_from_non_vehicle_maneuver steps)%exc ;;
             ret (mk_RoutingResponse (response_ response) (Some short))
           else ret response)%io w)).
  { unfold run, _route.
    unfold bind at 1 2 3 4 5.
    unfold resolve_waypoint, coordinates, ret, lift, __list_to_waypoint.
    cbn -[__prepare_mode_values __get any_mode_in bind].
    rewrite prepare_mode_values_Some.
    destruct Htimes as [-> | ->]; [destruct arrival|destruct departure];
      reflexivity. }
  assert (Hw1 : after_get
                  (build_url E URL_CALCULATE_ROUTE
                     (route_params E pa pb ms departure arrival)) rest w
                = w1) by reflexivity.
  repeat split.
  - intros s Hmode Hs. rewrite Hrun. unfold bind, lift, ret.
    rewrite Hget, Hw1. cbn [response_]. rewrite Hroute, Hr0. cbn [ebind].
    rewrite Hleg. cbn [ebind]. rewrite Hl0. cbn [ebind]. rewrite Hm, Hmode.
    rewrite Hit. cbn [ebind]. now rewrite Hs.
  - intros line segments s Hcar Hmode Hline Hseg Hs.
    rewrite Hrun. unfold bind, lift, ret.
    rewrite Hget, Hw1. cbn [response_]. rewrite Hroute, Hr0. cbn [ebind].
    rewrite Hleg. cbn [ebind]. rewrite Hl0. cbn [ebind].
    rewrite Hm, Hcar, Hmode, Hline. cbn [ebind]. rewrite Hseg. cbn [ebind].
    now rewrite Hs.
  - intros s Hcar Hpt Hmode Hs. rewrite Hrun. unfold bind, lift, ret.
    rewrite Hget, Hw1. cbn [response_]. rewrite Hroute, Hr0. cbn [ebind].
    rewrite Hleg. cbn [ebind]. rewrite Hl0. cbn [ebind].
    rewrite Hm, Hcar, Hpt, Hmode, Hit. cbn [ebind]. now rewrite Hs.
  - intros Hcar Hpt Hmode. rewrite Hrun. unfold bind, lift, ret.
    rewrite Hget, Hw1. cbn [response_]. rewrite Hroute, Hr0. cbn [ebind].
    rewrite Hleg. cbn [ebind]. rewrite Hl0. cbn [ebind].
    rewrite Hm, Hcar, Hpt, Hmode. reflexivity.
Qed.

(** X7: a route request for waypoints given by coordinates, with at most
    one of the two times, sends one GET to the route endpoint with the two
    waypoints, the mode string, the key and the time given.  On a reply
    with a route the summary attached to the response is chosen by the
    modes: the vehicle summary when they include car or truck; otherwise
    the line summary when they include public transport; otherwise the
    non-vehicle summary when they include pedestrian or bicycle; otherwise
    none. *)
Theorem route_summary_dispatch (E : env) (pa pb : json * json)
  (ms : list RouteMode) (departure arrival : option time_arg)
  (w : world) (r : response) (rest : list response)
  (v route0 maneuver : json) (steps : list json) :
  departure = None \/ arrival = None ->
  gets w = r :: rest ->
  route_reply r v ->
  first_maneuver v route0 maneuver ->
  iterate maneuver = Ok steps ->
  let run := _route E (coordinates pa) (coordinates pb) (Some ms)
               departure arrival w in
  let w1 := after_get (build_url E URL_CALCULATE_ROUTE
                         (route_params E pa pb ms departure arrival))
              rest w in
  (forall s,
      any_mode_in [car; truck] ms = true ->
      _get_route_from_vehicle_maneuver steps = Ok s ->
      run = (Done (mk_RoutingResponse v (Some s)), w1)) /\
  (forall line segments s,
      any_mode_in [car; truck] ms = false ->
      any_mode_in [publicTransport; publicTransportTimeTable] ms = true ->
      getitem route0 "publicTransportLine" = Ok line ->
      iterate line = Ok segments ->
      _get_route_from_public_transport_line segments = Ok s ->
      run = (Done (mk_RoutingResponse v (Some s)), w1)) /\
  (forall s,
      any_mode_in [car; truck] ms = false ->
      any_mode_in [publicTransport; publicTransportTimeTable] ms = false ->
      any_mode_in [pedestrian; bicycle] ms = true ->
      _get_route_from_non_vehicle_maneuver steps = Ok s ->
      run = (Done (mk_RoutingResponse v (Some s)), w1)) /\
  (any_mode_in [car; truck] ms = false ->
   any_mode_in [publicTransport; publicTransportTimeTable] ms = false ->
   any_mode_in [pedestrian; bicycle] ms = false ->
   run = (Done (mk_RoutingResponse v None), w1)).
Proof. exact (route_run E pa pb ms departure arrival w r rest v route0 maneuver steps). Qed.

Lemma sample_route_reply_ok : route_reply sample_route_reply sample_route_value.
Proof. eexists. repeat split. Qed.

Lemma sample_first_maneuver :
  first_maneuver sample_route_value sample_route0
    (JArr [step_of (instr_number "A1"); step_of (instr_street "Main St")]).
Proof. do 3 eexists. repeat split. Qed.

Lemma route_summary_dispatch_witness :
  route_reply sample_route_reply sample_route_value /\
  _route demo_env (coordinates (JInt 1, JInt 2)) (coordinates (JInt 3, JInt 4))
    (Some [pedestrian; car]) (Some (TimeStr "now")) None
    (mk_world [] [sample_route_reply] [])
  = (Done (mk_RoutingResponse sample_route_value (Some "A1")),
     mk_world [EvGet URL_CALCULATE_ROUTE] [] []).
Proof.
  split; [exact sample_route_reply_ok|].
  destruct (route_summary_dispatch demo_env (JInt 1, JInt 2) (JInt 3, JInt 4)
              [pedestrian; car] (Some (TimeStr "now")) None
              (mk_world [] [sample_route_reply] [])
              sample_route_reply [] sample_route_value sample_route0 _ _
              (or_intror eq_refl) eq_refl sample_route_reply_ok
              sample_first_maneuver eq_refl) as [H _].
  exact (H "A1" eq_refl eq_refl).
Defined.

(** X8: called without modes and for waypoints given by coordinates, the
    public route calls attach these summaries to a reply with a route:
    [car_route], [truck_route], [location_near_motorway] and
    [intermediate_route] the vehicle summary, [bicycle_route] and
    [pedastrian_route] the non-vehicle summary, [public_transport] and
    [public_transport_timetable] the line summary.  [intermediate_route]
    sends the request of [car_route]: its third waypoint is not used. *)
Theorem route_calls_default_summaries (E : env) (pa pb : json * json)
  (departure : option time_arg)
  (w : world) (r : response) (rest : list response)
  (v route0 maneuver line : json) (steps segments : list json)
  (sv sn sl : string) :
  gets w = r :: rest ->
  route_reply r v ->
  first_maneuver v route0 maneuver ->
  iterate maneuver = Ok steps ->
  getitem route0 "publicTransportLine" = Ok line ->
  iterate line = Ok segments ->
  _get_route_from_vehicle_maneuver steps = Ok sv ->
  _get_route_from_non_vehicle_maneuver steps = Ok sn ->
  _get_route_from_public_transport_line segments = Ok sl ->
  let sent ms :=
    after_get (build_url E URL_CALCULATE_ROUTE
                 (route_params E pa pb ms departure None)) rest w in
  let a := coordinates pa in
  let b := coordinates pb in
  car_route E a b None departure w
  = (Done (mk_RoutingResponse v (Some sv)), sent [car; fastest]) /\
  truck_route E a b None departure w
  = (Done (mk_RoutingResponse v (Some sv)), sent [truck; fastest]) /\
  location_near_motorway E a b None departure w
  = (Done (mk_RoutingResponse v (Some sv)), sent [car; fastest]) /\
  (forall waypoint_c,
      intermediate_route E a b waypoint_c None departure w
      = (Done (mk_RoutingResponse v (Some sv)), sent [car; fastest])) /\
  bicycle_route E a b None departure w
  = (Done (mk_RoutingResponse v (Some sn)), sent [bicycle; fastest]) /\
  pedastrian_route E a b None departure w
  = (Done (mk_RoutingResponse v (Some sn)), sent [pedestrian; fastest]) /\
  (forall combine_change,
      public_transport E a b combine_change None departure w
      = (Done (mk_RoutingResponse v (Some sl)),
         sent [publicTransport; fastest])) /\
  (forall combine_change,
      public_transport_timetable E a b combine_change None departure None w
      = (Done (mk_RoutingResponse v (Some sl)),
         sent [publicTransportTimeTable; fastest])).
Proof.
  intros Hg Hreply Hman Hit Hline Hseg Hsv Hsn Hsl sent a b.
  assert (Hrun : forall ms,
             let run := _route E a b (Some ms) departure None w in
             (any_mode_in [car; truck] ms = true ->
              run = (Done (mk_RoutingResponse v (Some sv)), sent ms)) /\
             (any_mode_in [car; truck] ms = false ->
              any_mode_in [publicTransport; publicTransportTimeTable] ms
              = true ->
              run = (Done (mk_RoutingResponse v (Some sl)), sent ms)) /\
             (any_mode_in [car; truck] ms = false ->
              any_mode_in [publicTransport; publicTransportTimeTable] ms
              = false ->
              any_mode_in [pedestrian; bicycle] ms = true ->
              run = (Done (mk_RoutingResponse v (Some sn)), sent ms))).
  { intros ms run.
    destruct (route_run E pa pb ms departure None w r rest v route0 maneuver
                steps (or_intror eq_refl) Hg Hreply Hman Hit)
      as [Hv [Hl [Hn _]]].
    repeat split.
    - intros Hc. exact (Hv sv Hc Hsv).
    - intros Hc Hp. exact (Hl line segments sl Hc Hp Hline Hseg Hsl).
    - intros Hc Hp Hb. exact (Hn sn Hc Hp Hb Hsn). }
  repeat split.
  - exact (proj1 (Hrun [car; fastest]) eq_refl).
  - exact (proj1 (Hrun [truck; fastest]) eq_refl).
  - exact (proj1 (Hrun [car; fastest]) eq_refl).
  - intros waypoint_c. exact (proj1 (Hrun [car; fastest]) eq_refl).
  - exact (proj2 (proj2 (Hrun [bicycle; fastest])) eq_refl eq_refl eq_refl).
  - exact (proj2 (proj2 (Hrun [pedestrian; fastest])) eq_refl eq_refl eq_refl).
  - intros cc. exact (proj1 (proj2 (Hrun [publicTransport; fastest]))
                        eq_refl eq_refl).
  - intros cc. exact (proj1 (proj2 (Hrun [publicTransportTimeTable; fastest]))
                        eq_refl eq_refl).
Qed.

Lemma route_calls_default_summaries_witness :
  intermediate_route demo_env (coordinates (JInt 1, JInt 2))
    (coordinates (JInt 3, JInt 4)) (JStr "Atlantis") None
    (Some (TimeStr "now")) (mk_world [] [sample_route_reply] [])
  = (Done (mk_RoutingResponse sample_route_value (Some "A1")),
     mk_world [EvGet URL_CALCULATE_ROUTE] [] []) /\
  bicycle_route demo_env (coordinates (JInt 1, JInt 2))
    (coordinates (JInt 3, JInt 4)) None
    (Some (TimeStr "now")) (mk_world [] [sample_route_reply] [])
  = (Done (mk_RoutingResponse sample_route_value (Some "Main St")),
     mk_world [EvGet URL_CALCULATE_ROUTE] [] []).
Proof.
  destruct (route_calls_default_summaries demo_env
              (JInt 1, JInt 2) (JInt 3, JInt 4) (Some (TimeStr "now"))
              (mk_world [] [sample_route_reply] [])
              sample_route_reply [] sample_route_value sample_route0
              _ _ _ _ "A1" "Main St" "U1 - X"
              eq_refl sample_route_reply_ok sample_first_maneuver
              eq_refl eq_refl eq_refl eq_refl eq_refl eq_refl)
    as [_ [_ [_ [Hi [Hb _]]]]].
  split; [exact (Hi (JStr "Atlantis"))|exact Hb].
Defined.

(** X9: a route request one of whose waypoints is a list of fewer than two
    coordinates raises [IndexError], and one without modes raises
    [TypeError]; in both cases nothing has been sent. *)
Theorem route_bad_arguments (E : env) (pb : json * json)
  (modes : option (list RouteMode)) (departure arrival : option time_arg)
  (w : world) :
  _route E (JArr []) (coordinates pb) modes departure arrival w
  = (Raised IndexError, w) /\
  (forall x,
      _route E (JArr [x]) (coordinates pb) modes departure arrival w
      = (Raised IndexError, w)) /\
  (forall pa,
      _route E (coordinates pa) (JArr []) modes departure arrival w
      = (Raised IndexError, w)) /\
  (forall pa x,
      _route E (coordinates pa) (JArr [x]) modes departure arrival w
      = (Raised IndexError, w)) /\
  (forall pa,
      _route E (coordinates pa) (coordinates pb) None departure arrival w
      = (Raised TypeError, w)).
Proof. repeat split. Qed.

(** ** The synchronous matrix call *)

Lemma sync_matrix_run
  (E : env) (caller : string) (ps qs : list (json * json))
  (matrix_type : enum_member) (c : json * json) (radius : json)
  (profile : option enum_member) (departure : option string)
  (routing_mode transport_mode : option enum_member)
  (matrix_attributes : option (list enum_member)) (w : world)
  (r : response) (later : list response) :
  posts w = r :: later ->
  exists body,
    assoc "origins" body = Some (JArr (map lat_lng ps)) /\
    sync_matrix E caller (map coordinates ps) (map coordinates qs)
      matrix_type (coordinates c) radius profile departure routing_mode
      transport_mode matrix_attributes w
    = (json_data <- lift (loads r) ;;
       matrix <- lift (dict_get json_data "matrix") ;;
       if negb (is_none matrix) then ret json_data
       else raise (matrix_error caller))%io
        (mk_world
           (trace w
              ++ [EvPost (build_url E URL_CALCULATE_MATRIX
                            [("apiKey", api_key E); ("async", "false")])
                    (JObj body)])
           (gets w) later).
Proof.
  intros Hposts.
  destruct (matrix_request_body_ok matrix_type c radius profile departure
              routing_mode transport_mode matrix_attributes) as [body0 Hb].
  exists (setitem "destinations" (JArr (map lat_lng ps))
            (setitem "origins" (JArr (map lat_lng ps)) body0)).
  split.
  - rewrite assoc_setitem_other by discriminate. apply assoc_setitem_same.
  - unfold sync_matrix. rewrite Hb. unfold bind at 1. unfold lift at 1.
    unfold ret at 1. unfold bind at 1. rewrite waypoint_loop_coordinates.
    unfold bind at 1. rewrite waypoint_loop_coordinates. simpl.
    unfold bind at 1. unfold requests_post at 1. rewrite Hposts.
    reflexivity.
Qed.

(** X10: for waypoints given by coordinates [sync_matrix] sends one POST and
    no GET.  A reply whose body is a dict with a [matrix] other than [None]
    is returned as it is; a dict without one raises the generic error that
    names the caller; a body that is not a dict raises [AttributeError] and
    one that does not decode raises [ValueError]. *)
Theorem sync_matrix_result
  (E : env) (caller : string) (ps qs : list (json * json))
  (matrix_type : enum_member) (c : json * json) (radius : json)
  (profile : option enum_member) (departure : option string)
  (routing_mode transport_mode : option enum_member)
  (matrix_attributes : option (list enum_member)) (w : world)
  (r : response) (later : list response) :
  posts w = r :: later ->
  exists body,
    let run :=
      sync_matrix E caller (map coordinates ps) (map coordinates qs)
        matrix_type (coordinates c) radius profile departure routing_mode
        transport_mode matrix_attributes w in
    let w1 :=
      mk_world
        (trace w
           ++ [EvPost (build_url E URL_CALCULATE_MATRIX
                         [("apiKey", api_key E); ("async", "false")])
                 (JObj body)])
        (gets w) later in
    (forall fields m,
        content r = Some (JObj fields) -> assoc "matrix" fields = Some m ->
        is_none m = false -> run = (Done (JObj fields), w1)) /\
    (forall fields,
        content r = Some (JObj fields) ->
        assoc "matrix" fields = None \/ assoc "matrix" fields = Some JNull ->
        run = (Raised (matrix_error caller), w1)) /\
    (forall v,
        content r = Some v -> (forall fields, v <> JObj fields) ->
        run = (Raised AttributeError, w1)) /\
    (content r = None -> run = (Raised ValueError, w1)).
Proof.
  intros Hposts.
  destruct (sync_matrix_run E caller ps qs matrix_type c radius profile
              departure routing_mode transport_mode matrix_attributes
              w r later Hposts) as [body [_ Hrun]].
  exists body. intros run w1. unfold run. rewrite Hrun. fold w1.
  unfold bind, lift, loads. repeat split.
  - intros fields m -> Hm Hn. simpl. rewrite Hm. simpl. now rewrite Hn.
  - intros fields -> [Hm | Hm]; simpl; now rewrite Hm.
  - intros v -> Hv. destruct v; try reflexivity. now destruct (Hv fields).
  - intros ->. reflexivity.
Qed.

Lemma sync_matrix_result_witness :
  exists body,
    sync_matrix demo_env "main" (map coordinates [(JInt 1, JInt 2)])
      (map coordinates [(JInt 3, JInt 4)]) (mk_enum_member "circle")
      (coordinates (JInt 0, JInt 0)) (JInt 10000) None None None None None
      (mk_world [] [] [mk_response 200 (Some (JObj [("error", JStr "x")]))])
    = (Raised (matrix_error "main"),
       mk_world [EvPost URL_CALCULATE_MATRIX (JObj body)] [] []).
Proof.
  destruct (sync_matrix_result demo_env "main" [(JInt 1, JInt 2)]
              [(JInt 3, JInt 4)] (mk_enum_member "circle") (JInt 0, JInt 0)
              (JInt 10000) None None None None None
              (mk_world [] []
                 [mk_response 200 (Some (JObj [("error", JStr "x")]))])
              _ _ eq_refl) as [body [_ [H _]]].
  exists body. exact (H _ eq_refl (or_introl eq_refl)).
Defined.

(** ** The asynchronous matrix call *)

(** X11: when the provider answers the submission with a status other than
    202, [async_matrix] raises the generic error that names the caller,
    whatever the body, and never polls: one POST, no GET. *)
Theorem async_matrix_rejected
  (E : env) (caller : string) (ps qs : list (json * json))
  (matrix_type : enum_member) (c : json * json) (radius : json)
  (profile : option enum_member) (departure : option string)
  (routing_mode transport_mode : option enum_member)
  (matrix_attributes : option (list enum_member)) (w : world)
  (r0 : response) (later : list response) :
  posts w = r0 :: later -> status_code r0 <> 202%Z ->
  exists body,
    async_matrix E caller (map coordinates ps) (map coordinates qs)
      matrix_type (coordinates c) radius profile departure routing_mode
      transport_mode matrix_attributes w
    = (Raised (matrix_error caller),
       mk_world
         (trace w
            ++ [EvPost (build_url E URL_CALCULATE_MATRIX
                          [("apiKey", api_key E)]) (JObj body)])
         (gets w) later) /\
    assoc "origins" body = Some (JArr (map lat_lng ps)) /\
    assoc "destinations" body = Some (JArr (map lat_lng qs)).
Proof.
  intros Hposts Hs.
  destruct (matrix_request_body_ok matrix_type c radius profile departure
              routing_mode transport_mode matrix_attributes) as [body0 Hb].
  exists (setitem "destinations" (JArr (map lat_lng qs))
            (setitem "origins" (JArr (map lat_lng ps)) body0)).
  split; [|split].
  - unfold async_matrix. rewrite Hb. unfold bind at 1. unfold lift at 1.
    unfold ret at 1. unfold bind at 1. rewrite waypoint_loop_coordinates.
    unfold bind at 1. rewrite waypoint_loop_coordinates. simpl.
    unfold bind at 1. unfold requests_post at 1. rewrite Hposts.
    apply Z.eqb_neq in Hs. cbn [status_code] in *. now rewrite Hs.
  - rewrite assoc_setitem_other by discriminate. apply assoc_setitem_same.
  - apply assoc_setitem_same.
Qed.

Lemma async_matrix_rejected_witness :
  exists body,
    async_matrix demo_env "main" (map coordinates [(JInt 1, JInt 2)])
      (map coordinates [(JInt 3, JInt 4)]) (mk_enum_member "circle")
      (coordinates (JInt 0, JInt 0)) (JInt 10000) None None None None None
      (mk_world [] [r_running] [mk_response 400 None])
    = (Raised (matrix_error "main"),
       mk_world [EvPost URL_CALCULATE_MATRIX (JObj body)] [r_running] []).
Proof.
  destruct (async_matrix_rejected demo_env "main" [(JInt 1, JInt 2)]
              [(JInt 3, JInt 4)] (mk_enum_member "circle") (JInt 0, JInt 0)
              (JInt 10000) None None None None None
              (mk_world [] [r_running] [mk_response 400 None])
              _ _ eq_refl ltac:(discriminate)) as [body [H _]].
  exists body. exact H.
Defined.

(** The handling of the result of the loop ends with the generic error or
    with nothing; the world is as before. *)
Lemma after_polling_cases (E : env) (caller : string) (r : response)
  (w : world) :
  after_polling E caller r w
  = match content r with
    | None => (Raised (matrix_error caller), w)
    | Some d =>
        match getitem d "matrixId", getitem d "status" with
        | Ok _, Ok st =>
            if eq_str st "completed" then (Raised (matrix_error caller), w)
            else match getitem d "error" with
                 | Ok err =>
                     if truthy err then (Raised (matrix_error caller), w)
                     else (Done tt, w)
                 | Raise _ => (Raised (matrix_error caller), w)
                 end
        | _, _ => (Raised (matrix_error caller), w)
        end
    end.
Proof.
  unfold after_polling, except_any, bind, lift, loads, ret, raise,
    matrix_error.
  destruct (content r) as [d|]; [|reflexivity].
  destruct (getitem d "matrixId"); [|reflexivity].
  destruct (getitem d "status") as [st|]; [|reflexivity].
  destruct (eq_str st "completed").
  - destruct (getitem d "resultUrl") as [u|]; [|reflexivity].
    destruct (as_str_operand u); reflexivity.
  - destruct (getitem d "error") as [err|]; [|reflexivity].
    destruct (truthy err); reflexivity.
Qed.

(** X12: whatever response the poll loop returns, [async_matrix] ends either
    with the generic error that names the caller or with [None], and sends
    and reads nothing more.  It ends with [None] only for a job that is
    not completed and whose [error] is empty: a completed job ends with the
    generic error (the call that should download the result passes no
    arguments), and so does a failed job, whose error text is lost. *)
Theorem after_polling_outcomes (E : env) (caller : string) (r : response)
  (w : world) :
  (after_polling E caller r w = (Done tt, w) \/
   after_polling E caller r w = (Raised (matrix_error caller), w)) /\
  (after_polling E caller r w = (Done tt, w) <->
   exists d m st err,
     content r = Some d /\ getitem d "matrixId" = Ok m /\
     getitem d "status" = Ok st /\ eq_str st "completed" = false /\
     getitem d "error" = Ok err /\ truthy err = false) /\
  (forall d m st,
      content r = Some d -> getitem d "matrixId" = Ok m ->
      getitem d "status" = Ok st -> eq_str st "completed" = true ->
      after_polling E caller r w = (Raised (matrix_error caller), w)) /\
  (forall d m st err,
      content r = Some d -> getitem d "matrixId" = Ok m ->
      getitem d "status" = Ok st -> eq_str st "completed" = false ->
      getitem d "error" = Ok err -> truthy err = true ->
      after_polling E caller r w = (Raised (matrix_error caller), w)).
Proof.
  rewrite after_polling_cases. repeat split.
  - destruct (content r) as [d|]; [|now right].
    destruct (getitem d "matrixId"); [|now right].
    destruct (getitem d "status") as [st|]; [|now right].
    destruct (eq_str st "completed"); [now right|].
    destruct (getitem d "error") as [err|]; [|now right].
    destruct (truthy err); [now right|now left].
  - destruct (content r) as [d|]; [|discriminate].
    destruct (getitem d "matrixId") as [m|] eqn:Hm; [|discriminate].
    destruct (getitem d "status") as [st|] eqn:Hst; [|discriminate].
    destruct (eq_str st "completed") eqn:Hc; [discriminate|].
    destruct (getitem d "error") as [err|] eqn:He; [|discriminate].
    destruct (truthy err) eqn:Ht; [discriminate|].
    intros _. exists d, m, st, err. repeat split; assumption.
  - intros [d [m [st [err [-> [-> [-> [-> [-> ->]]]]]]]]]. reflexivity.
  - intros d m st -> -> -> ->. reflexivity.
  - intros d m st err -> -> -> -> -> ->. reflexivity.
Qed.

(** X13: a job that completes is never downloaded.  After any number of
    polls answered with status 200, a poll answered with status 303 and a
    completed job makes [async_matrix] raise the generic error that names
    the caller; the last event is that poll: no request for the result and
    no file. *)
Theorem async_matrix_completed_not_downloaded
  (E : env) (caller : string) (ps qs : list (json * json))
  (matrix_type : enum_member) (c : json * json) (radius : json)
  (profile : option enum_member) (departure : option string)
  (routing_mode transport_mode : option enum_member)
  (matrix_attributes : option (list enum_member))
  (w : world) (r0 : response) (later : list response) (status_url : string)
  (pending : list response) (r : response) (rest : list response)
  (d m : json) :
  posts w = r0 :: later -> accepted r0 status_url ->
  Forall running pending ->
  gets w = (pending ++ r :: rest)%list ->
  status_code r = 303%Z -> content r = Some d ->
  getitem d "matrixId" = Ok m -> getitem d "status" = Ok (JStr "completed") ->
  let poll_url := build_url E status_url [("apiKey", api_key E)] in
  exists body,
    async_matrix E caller (map coordinates ps) (map coordinates qs)
      matrix_type (coordinates c) radius profile departure routing_mode
      transport_mode matrix_attributes w
    = (Raised (matrix_error caller),
       mk_world
         (trace w
            ++ EvPost (build_url E URL_CALCULATE_MATRIX
                         [("apiKey", api_key E)]) (JObj body)
            :: poll_events poll_url (length pending) ++ [EvGet poll_url])
         rest later).
Proof.
  intros Hposts Hacc Hp Hg Hs Hc Hm Hst poll_url.
  destruct (async_matrix_accepted E caller ps qs matrix_type c radius profile
              departure routing_mode transport_mode matrix_attributes
              w r0 later status_url Hposts Hacc) as [body [_ Hrun]].
  exists body. rewrite Hrun. unfold bind.
  assert (Hr : redirected r).
  { split; [exact Hs|]. exists d. split; [exact Hc|].
    destruct d; try discriminate. simpl in Hm.
    destruct fields; [discriminate|reflexivity]. }
  erewrite poll_status_redirected; [|exact Hp|exact Hr|exact Hg].
  rewrite after_polling_cases, Hc, Hm, Hst. simpl. fold poll_url.
  now rewrite <- app_assoc.
Qed.

Lemma async_matrix_completed_not_downloaded_witness :
  exists body,
    demo_async [r_running; r_redirect "completed"; r_running]
    = (Raised (matrix_error "main"),
       mk_world
         [EvPost URL_CALCULATE_MATRIX (JObj body);
          EvGet "https://status"; EvSleep 5; EvGet "https://status"]
         [r_running] []).
Proof.
  destruct (async_matrix_completed_not_downloaded demo_env "main"
              [(JInt 1, JInt 2)] [(JInt 3, JInt 4)]
              (mk_enum_member "circle") (JInt 0, JInt 0) (JInt 10000)
              None None None None None
              (mk_world [] [r_running; r_redirect "completed"; r_running]
                 [r_accepted])
              r_accepted [] "https://status" [r_running]
              (r_redirect "completed") [r_running]
              (job_body "completed") (JStr "m1")
              eq_refl r_accepted_accepted
              (Forall_cons _ r_running_running (Forall_nil _))
              eq_refl eq_refl eq_refl eq_refl eq_refl) as [body H].
  exists body. exact H.
Defined.

(** ** More on the poll loop *)

Lemma not_done_check (r : response) :
  not_done r ->
  exists v, __is_correct_response r = Ok v /\ truthy v = false.
Proof.
  intros [Hr | [Hu | [Hs [d [Hc Ht]]]]].
  - exists (JBool false). split; [now apply running_not_done|reflexivity].
  - destruct Hu as [H303 [H200 [H401 [H403 [H404 [H500 Hc]]]]]].
    exists JNull. split; [|reflexivity].
    unfold __is_correct_response, loads.
    destruct (content r) as [d|]; [|congruence]. simpl.
    apply Z.eqb_neq in H303, H200, H401, H403, H404, H500.
    now rewrite H303, H200, H401, H403, H404, H500.
  - exists d. split; [|exact Ht].
    unfold __is_correct_response, loads. rewrite Hc, Hs. reflexivity.
Qed.

Lemma poll_not_done (url : string) (pending rest : list response) (n : nat)
  (w : world) :
  Forall not_done pending ->
  gets w = (pending ++ rest)%list ->
  poll (length pending + n) (requests_get url) __is_correct_response 5 w
  = poll n (requests_get url) __is_correct_response 5
      (mk_world (trace w ++ poll_events url (length pending)) rest (posts w)).
Proof.
  intros Hp. revert w. induction Hp as [|r pending Hr _ IH]; intros w Hg.
  - simpl in *. rewrite app_nil_r, <- Hg. now rewrite world_eta.
  - simpl in Hg. cbn [length Nat.add].
    destruct (not_done_check _ Hr) as [v [Hc Ht]].
    rewrite (poll_step_continue _ _ _ _ _ _ _ _ Hg Hc Ht).
    rewrite IH by reflexivity. simpl. now rewrite <- app_assoc.
Qed.

Lemma poll_status_not_done (url : string) (pending : list response)
  (rest : list response) (w : world) :
  Forall not_done pending ->
  gets w = (pending ++ rest)%list ->
  poll_status url w
  = poll (S (length rest)) (requests_get url) __is_correct_response 5
      (mk_world (trace w ++ poll_events url (length pending)) rest (posts w)).
Proof.
  intros Hp Hg. unfold poll_status.
  replace (S (length (gets w))) with (length pending + S (length rest))
    by (rewrite Hg, length_app; lia).
  now apply poll_not_done.
Qed.

(** X14: the loop has no way out on its own.  While the responses have
    status 200 (whatever status the job reports, completed included), a
    status code without a branch, or status 303 with an empty body, every
    one of them is followed by a pause of five seconds and another poll;
    when they run out the loop is waiting for the answer to one more. *)
Theorem poll_loop_keeps_polling (url : string) (script : list response)
  (w : world) :
  Forall not_done script -> gets w = script ->
  poll_status url w
  = (Starved,
     mk_world (trace w ++ poll_events url (length script) ++ [EvGet url])
       [] (posts w)) /\
  gets_sent url (poll_events url (length script) ++ [EvGet url])
  = length script + 1.
Proof.
  intros Hp Hg. split.
  - rewrite (poll_status_not_done url script [] w Hp)
      by (now rewrite app_nil_r).
    cbn [length poll]. unfold bind, requests_get. simpl.
    now rewrite <- app_assoc.
  - now rewrite gets_sent_app, gets_sent_poll_events, gets_sent_one.
Qed.

Lemma poll_loop_keeps_polling_witness :
  Forall not_done [r_completed; mk_response 502 (Some JNull)] /\
  poll_status "https://status"
    (mk_world [] [r_completed; mk_response 502 (Some JNull)] [])
  = (Starved,
     mk_world
       [EvGet "https://status"; EvSleep 5; EvGet "https://status"; EvSleep 5;
        EvGet "https://status"] [] []).
Proof.
  assert (H : Forall not_done [r_completed; mk_response 502 (Some JNull)]).
  { constructor; [|constructor; [|constructor]].
    - left. split; [reflexivity|].
      exists (job_body "completed"), (JStr "m1"), (JStr "completed").
      repeat split.
    - right; left. repeat split; discriminate. }
  split; [exact H|].
  exact (proj1 (poll_loop_keeps_polling "https://status" _
                  (mk_world [] [r_completed; mk_response 502 (Some JNull)] [])
                  H eq_refl)).
Defined.

Lemma poll_status_raise (url : string) (pending : list response)
  (r : response) (rest : list response) (e : exn) (w : world) :
  Forall not_done pending ->
  gets w = (pending ++ r :: rest)%list ->
  __is_correct_response r = Raise e ->
  poll_status url w
  = (Raised e,
     mk_world (trace w ++ poll_events url (length pending) ++ [EvGet url])
       rest (posts w)).
Proof.
  intros Hp Hg He. rewrite (poll_status_not_done _ _ _ _ Hp Hg).
  erewrite poll_step_raise; [|reflexivity|exact He]. simpl.
  now rewrite <- app_assoc.
Qed.

(** X15: the loop ends at once, with no further poll, on a response of
    status 404 or 500, raising the error that carries the provider's title
    and status when both are strings and [TypeError] when the status is
    not a string; and on a response whose body does not decode, raising
    [ValueError], whatever its status code. *)
Theorem poll_loop_failures (url : string) (pending : list response)
  (r : response) (rest : list response) (w : world) :
  Forall not_done pending ->
  gets w = (pending ++ r :: rest)%list ->
  let w1 :=
    mk_world (trace w ++ poll_events url (length pending) ++ [EvGet url])
      rest (posts w) in
  (forall title status,
      server_failure r title status ->
      poll_status url w
      = (Raised (Here HEREError
                   (JStr ("Error occured on __is_correct_response: " ++ title
                          ++ ", status: " ++ status))), w1)) /\
  (forall d title v,
      status_code r = 404%Z \/ status_code r = 500%Z ->
      content r = Some d -> getitem d "title" = Ok (JStr title) ->
      getitem d "status" = Ok v -> (forall s, v <> JStr s) ->
      poll_status url w = (Raised TypeError, w1)) /\
  (content r = None -> poll_status url w = (Raised ValueError, w1)).
Proof.
  intros Hp Hg w1. repeat split.
  - intros title status [Hs [d [Hc [Ht Hst]]]].
    apply (poll_status_raise _ _ _ _ _ _ Hp Hg).
    unfold __is_correct_response, loads. rewrite Hc. simpl.
    rewrite Ht, Hst. destruct Hs as [-> | ->]; reflexivity.
  - intros d title v Hs Hc Ht Hv Hn.
    apply (poll_status_raise _ _ _ _ _ _ Hp Hg).
    unfold __is_correct_response, loads. rewrite Hc. simpl.
    rewrite Ht, Hv.
    assert (Ho : as_str_operand v = Raise TypeError)
      by (destruct v; try reflexivity; now destruct (Hn s)).
    destruct Hs as [-> | ->]; simpl; now rewrite Ho.
  - intros Hc. apply (poll_status_raise _ _ _ _ _ _ Hp Hg).
    unfold __is_correct_response, loads. now rewrite Hc.
Qed.

Lemma poll_loop_failures_witness :
  poll_status "https://status"
    (mk_world []
       [r_running;
        mk_response 404
          (Some (JObj [("title", JStr "Not found"); ("status", JInt 404)]));
        r_running] [])
  = (Raised TypeError,
     mk_world [EvGet "https://status"; EvSleep 5; EvGet "https://status"]
       [r_running] []).
Proof.
  assert (Hp : Forall not_done [r_running])
    by (constructor; [left; exact r_running_running|constructor]).
  destruct (poll_loop_failures "https://status" [r_running]
              (mk_response 404
                 (Some (JObj [("title", JStr "Not found");
                              ("status", JInt 404)])))
              [r_running]
              (mk_world []
                 [r_running;
                  mk_response 404
                    (Some (JObj [("title", JStr "Not found");
                                 ("status", JInt 404)]));
                  r_running] [])
              Hp eq_refl) as [_ [H _]].
  refine (H _ "Not found" (JInt 404) (or_introl eq_refl) eq_refl eq_refl
            eq_refl _).
  intros s; discriminate.
Defined.

(** ** What the calls never send *)

Lemma emits_ret {A} (ok : event -> bool) (a : A) : emits ok (ret a).
Proof. intros w. exists []. simpl. now rewrite app_nil_r. Qed.

Lemma emits_raise {A} (ok : event -> bool) (e : exn) : emits ok (@raise A e).
Proof. intros w. exists []. simpl. now rewrite app_nil_r. Qed.

Lemma emits_lift {A} (ok : event -> bool) (c : exc A) : emits ok (lift c).
Proof. destruct c; [apply emits_ret|apply emits_raise]. Qed.

Lemma emits_bind {A B} (ok : event -> bool) (c : M A) (k : A -> M B) :
  emits ok c -> (forall a, emits ok (k a)) -> emits ok (bind c k).
Proof.
  intros Hc Hk w. unfold bind. destruct (Hc w) as [t1 [Ht1 Hok1]].
  destruct (c w) as [[a|e|] w1]; simpl in Ht1.
  - destruct (Hk a w1) as [t2 [Ht2 Hok2]]. exists (t1 ++ t2)%list.
    rewrite Ht2, Ht1, app_assoc, forallb_app, Hok1, Hok2. now split.
  - exists t1. now split.
  - exists t1. now split.
Qed.

Lemma emits_emit (ok : event -> bool) (ev : event) :
  ok ev = true -> emits ok (emit ev).
Proof. intros H w. exists [ev]. simpl. now rewrite H. Qed.

Lemma emits_get (ok : event -> bool) (url : string) :
  ok (EvGet url) = true -> emits ok (requests_get url).
Proof.
  intros H w. exists [EvGet url]. unfold requests_get.
  destruct (gets w); simpl; now rewrite H.
Qed.

Lemma emits_geocoder (E : env) (name : string) :
  emits is_geocode (_get_coordinates_for_location_name E name).
Proof.
  unfold _get_coordinates_for_location_name.
  apply emits_bind; [now apply emits_emit|intros _].
  destruct (free_form E name) as [items|e]; [apply emits_lift|].
  destruct e; apply emits_raise.
Qed.

Lemma emits_resolve (E : env) (waypoint : json) :
  emits is_geocode (resolve_waypoint E waypoint).
Proof. destruct waypoint; try apply emits_ret. apply emits_geocoder. Qed.

Lemma emits_waypoint_loop (E : env) (points acc : list json) :
  emits is_geocode (for_each_io (waypoint_step E) points acc).
Proof.
  revert acc; induction points as [|p points IH]; intros acc; simpl.
  - apply emits_ret.
  - apply emits_bind; [|intros acc'; apply IH].
    unfold waypoint_step.
    apply emits_bind; [apply emits_resolve|intros wp].
    apply emits_bind; [apply emits_lift|intros lat].
    apply emits_bind; [apply emits_lift|intros lng]. apply emits_ret.
Qed.

Lemma emits_poll (url : string) (check : response -> exc json) (step : Z)
  (n : nat) :
  emits is_poll_or_pause (poll n (requests_get url) check step).
Proof.
  induction n as [|n IH]; simpl.
  - intros w. exists []. simpl. now rewrite app_nil_r.
  - apply emits_bind; [now apply emits_get|intros val].
    apply emits_bind; [apply emits_lift|intros ok].
    destruct (truthy ok); [apply emits_ret|].
    apply emits_bind; [now apply emits_emit|intros _]. exact IH.
Qed.

Lemma pure_ret {A} (a : A) : pure_io (ret a).
Proof. intros w. reflexivity. Qed.

Lemma pure_raise {A} (e : exn) : pure_io (@raise A e).
Proof. intros w. reflexivity. Qed.

Lemma pure_lift {A} (c : exc A) : pure_io (lift c).
Proof. destruct c; [apply pure_ret|apply pure_raise]. Qed.

Lemma pure_bind {A B} (c : M A) (k : A -> M B) :
  pure_io c -> (forall a, pure_io (k a)) -> pure_io (bind c k).
Proof.
  intros Hc Hk w. unfold bind. specialize (Hc w).
  destruct (c w) as [[a|e|] w1]; simpl in *; subst; [apply Hk|reflexivity..].
Qed.

Lemma at_most_one_raise {A} (req : event -> Prop) (e : exn) :
  at_most_one req (@raise A e).
Proof.
  intros w. exists [], []. simpl. rewrite app_nil_r. repeat split. now left.
Qed.

Lemma at_most_one_prefix {A B} (req : event -> Prop) (c : M A)
  (k : A -> M B) :
  emits is_geocode c -> (forall a, at_most_one req (k a)) ->
  at_most_one req (bind c k).
Proof.
  intros Hc Hk w. unfold bind. destruct (Hc w) as [t1 [Ht1 Hok1]].
  destruct (c w) as [[a|e|] w1]; simpl in Ht1.
  - destruct (Hk a w1) as [l [s [Ht [Hl Hs]]]].
    exists (t1 ++ l)%list, s.
    rewrite Ht, Ht1, forallb_app, Hok1, Hl, <- !app_assoc. now repeat split.
  - exists t1, []. simpl. rewrite app_nil_r. repeat split; auto.
  - exists t1, []. simpl. rewrite app_nil_r. repeat split; auto.
Qed.

Lemma at_most_one_pure {A B} (req : event -> Prop) (c : M A)
  (k : A -> M B) :
  at_most_one req c -> (forall a, pure_io (k a)) ->
  at_most_one req (bind c k).
Proof.
  intros Hc Hk w. unfold bind. destruct (Hc w) as [l [s [Ht H]]].
  destruct (c w) as [[a|e|] w1]; simpl in Ht.
  - exists l, s. now rewrite Hk.
  - exists l, s. now split.
  - exists l, s. now split.
Qed.

Lemma at_most_one_get (req : event -> Prop) (url : string) :
  req (EvGet url) -> at_most_one req (requests_get url).
Proof.
  intros H w. exists [], [EvGet url]. unfold requests_get.
  destruct (gets w); simpl; repeat split; right; eauto.
Qed.

Lemma at_most_one_post (req : event -> Prop) (url : string) (body : json) :
  req (EvPost url body) -> at_most_one req (requests_post url body).
Proof.
  intros H w. exists [], [EvPost url body]. unfold requests_post.
  destruct (posts w); simpl; repeat split; right; eauto.
Qed.

Lemma pure_emits {A} (ok : event -> bool) (c : M A) :
  pure_io c -> emits ok c.
Proof. intros H w. exists []. rewrite H, app_nil_r. now split. Qed.

Lemma emits_poll_status (url : string) : emits is_poll_or_pause (poll_status url).
Proof. intros w. unfold poll_status. apply emits_poll. Qed.

Lemma one_then_polls_raise {A} (req : event -> Prop) (e : exn) :
  one_then_polls req (@raise A e).
Proof.
  intros w. exists [], []. simpl. rewrite app_nil_r. repeat split. now left.
Qed.

Lemma one_then_polls_prefix {A B} (req : event -> Prop) (c : M A)
  (k : A -> M B) :
  emits is_geocode c -> (forall a, one_then_polls req (k a)) ->
  one_then_polls req (bind c k).
Proof.
  intros Hc Hk w. unfold bind. destruct (Hc w) as [t1 [Ht1 Hok1]].
  destruct (c w) as [[a|e|] w1]; simpl in Ht1.
  - destruct (Hk a w1) as [l [s [Ht [Hl Hs]]]].
    exists (t1 ++ l)%list, s.
    rewrite Ht, Ht1, forallb_app, Hok1, Hl, <- !app_assoc. now repeat split.
  - exists t1, []. simpl. rewrite app_nil_r. repeat split; auto.
  - exists t1, []. simpl. rewrite app_nil_r. repeat split; auto.
Qed.

Lemma one_then_polls_post {B} (req : event -> Prop) (url : string)
  (body : json) (k : response -> M B) :
  req (EvPost url body) -> (forall r, emits is_poll_or_pause (k r)) ->
  one_then_polls req (bind (requests_post url body) k).
Proof.
  intros Hreq Hk w. unfold bind, requests_post.
  destruct (posts w) as [|r later].
  - exists [], [EvPost url body]. simpl. repeat split.
    right. exists (EvPost url body), []. now repeat split.
  - destruct (Hk r (mk_world (trace w ++ [EvPost url body]) (gets w) later))
      as [t [Ht Hok]].
    exists [], (EvPost url body :: t). simpl in *.
    rewrite Ht, <- app_assoc. repeat split.
    right. exists (EvPost url body), t. now repeat split.
Qed.

(** X16: whatever its arguments and whatever the transport answers, a route
    request consults the geocoder and then sends at most one request, a GET
    to the route endpoint: there is no second attempt and no POST. *)
Theorem route_sends_at_most_one_get (E : env) (waypoint_a waypoint_b : json)
  (modes : option (list RouteMode)) (departure arrival : option time_arg) :
  at_most_one
    (fun ev => exists data, ev = EvGet (build_url E URL_CALCULATE_ROUTE data))
    (_route E waypoint_a waypoint_b modes departure arrival).
Proof.
  unfold _route.
  apply at_most_one_prefix; [apply emits_resolve|intros a].
  apply at_most_one_prefix; [apply emits_resolve|intros b].
  apply at_most_one_prefix; [apply emits_lift|intros w0].
  apply at_most_one_prefix; [apply emits_lift|intros w1].
  apply at_most_one_prefix; [apply emits_lift|intros mode].
  cbv zeta.
  assert (Hget : forall data,
             at_most_one
               (fun ev =>
                  exists data, ev = EvGet (build_url E URL_CALCULATE_ROUTE data))
               (__get E URL_CALCULATE_ROUTE data)).
  { intros data. unfold __get. cbv zeta.
    apply at_most_one_pure; [apply at_most_one_get; eauto|intros r].
    apply pure_bind; [apply pure_lift|intros json_data].
    apply pure_bind; [apply pure_lift|intros v].
    destruct (negb (is_none v)); [apply pure_lift|].
    destruct json_data; try apply pure_raise.
    apply pure_bind; [apply pure_lift|intros e]. apply pure_raise. }
  assert (Hrest : forall data,
             at_most_one
               (fun ev =>
                  exists data, ev = EvGet (build_url E URL_CALCULATE_ROUTE data))
               (bind (__get E URL_CALCULATE_ROUTE data)
                  (fun response =>
                     route <- lift (getitem (response_ response) "route") ;;
                     maneuver <- lift (route0 <- getindex route 0 ;;
                                       leg <- getitem route0 "leg" ;;
                                       leg0 <- getindex leg 0 ;;
                                       getitem leg0 "maneuver")%exc ;;
                     let ms := match modes with
                               | Some ms => ms
                               | None => []
                               end in
                     if any_mode_in [car; truck] ms then
                       short <- lift (steps <- iterate maneuver ;;
                                      _get_route_from_vehicle_maneuver steps)%exc ;;
                       ret (mk_RoutingResponse (response_ response)
                              (Some short))
                     else if any_mode_in
                               [publicTransport; publicTransportTimeTable] ms
                     then
                       short <- lift (route0 <- getindex route 0 ;;
                                      public_transport_line <-
                                        getitem route0 "publicTransportLine" ;;
                                      segments <- iterate public_transport_line ;;
                                      _get_route_from_public_transport_line
                                        segments)%exc ;;
                       ret (mk_RoutingResponse (response_ response)
                              (Some short))
                     else if any_mode_in [pedestrian; bicycle] ms then
                       short <- lift (steps <- iterate maneuver ;;
                                      _get_route_from_non_vehicle_maneuver
                                        steps)%exc ;;
                       ret (mk_RoutingResponse (response_ response)
                              (Some short))
                     else ret response)%io)).
  { intros data. apply at_most_one_pure; [apply Hget|intros response].
    apply pure_bind; [apply pure_lift|intros route].
    apply pure_bind; [apply pure_lift|intros maneuver]. cbv zeta.
    repeat match goal with
           | |- pure_io (if ?c then _ else _) => destruct c
           | |- pure_io (bind _ _) => apply pure_bind; [apply pure_lift|intros ?]
           | |- pure_io (ret _) => apply pure_ret
           end. }
  destruct departure as [d|], arrival as [a'|];
    [apply at_most_one_raise|apply Hrest..].
Qed.

(** X17: whatever its arguments and whatever the transport answers,
    [sync_matrix] consults the geocoder and then sends at most one request,
    a POST to the matrix endpoint with the parameter that asks for a
    synchronous answer; it never sends a GET. *)
Theorem sync_matrix_sends_at_most_one_post
  (E : env) (caller : string) (origins destinations : list json)
  (matrix_type : enum_member) (center radius : json)
  (profile : option enum_member) (departure : option string)
  (routing_mode transport_mode : option enum_member)
  (matrix_attributes : option (list enum_member)) :
  at_most_one
    (fun ev =>
       exists body,
         ev = EvPost (build_url E URL_CALCULATE_MATRIX
                        [("apiKey", api_key E); ("async", "false")])
                (JObj body))
    (sync_matrix E caller origins destinations matrix_type center radius
       profile departure routing_mode transport_mode matrix_attributes).
Proof.
  unfold sync_matrix.
  apply at_most_one_prefix; [apply emits_lift|intros body]. cbv zeta.
  apply at_most_one_prefix; [apply emits_waypoint_loop|intros origin_list].
  apply at_most_one_prefix; [apply emits_waypoint_loop|intros dest_list].
  apply at_most_one_pure; [apply at_most_one_post; eauto|intros r].
  apply pure_bind; [apply pure_lift|intros json_data].
  apply pure_bind; [apply pure_lift|intros matrix].
  destruct (negb (is_none matrix)); [apply pure_ret|apply pure_raise].
Qed.

(** X18: whatever its arguments and whatever the transport answers,
    [async_matrix] consults the geocoder, then sends at most one POST, to
    the matrix endpoint, and after it only polls and pauses: the job is
    never submitted twice, and no file is ever written. *)
Theorem async_matrix_submits_once
  (E : env) (caller : string) (origins destinations : list json)
  (matrix_type : enum_member) (center radius : json)
  (profile : option enum_member) (departure : option string)
  (routing_mode transport_mode : option enum_member)
  (matrix_attributes : option (list enum_member)) :
  one_then_polls
    (fun ev =>
       exists body,
         ev = EvPost (build_url E URL_CALCULATE_MATRIX [("apiKey", api_key E)])
                (JObj body))
    (async_matrix E caller origins destinations matrix_type center radius
       profile departure routing_mode transport_mode matrix_attributes).
Proof.
  unfold async_matrix.
  apply one_then_polls_prefix; [apply emits_lift|intros body]. cbv zeta.
  apply one_then_polls_prefix; [apply emits_waypoint_loop|intros origin_list].
  apply one_then_polls_prefix; [apply emits_waypoint_loop|intros dest_list].
  apply one_then_polls_post; [eauto|intros r].
  destruct (status_code r =? 202)%Z; [|apply emits_raise].
  apply emits_bind; [apply emits_lift|intros json_data].
  apply emits_bind; [apply emits_lift|intros m].
  apply emits_bind; [apply emits_lift|intros s].
  apply emits_bind; [apply emits_lift|intros u].
  apply emits_bind; [apply emits_lift|intros status_url].
  apply emits_bind; [apply emits_poll_status|intros result].
  apply pure_emits. intros w. apply after_polling_world.
Qed.

(** ** Waypoints given by name *)

Lemma geocoder_unknown (E : env) (name : string) (c : here_class)
  (msg : json) (w : world) :
  free_form E name = Raise (Here c msg) ->
  _get_coordinates_for_location_name E name w
  = (Raised (Here WaypointNotFoundError msg), after_geocode name w).
Proof.
  intros H. unfold _get_coordinates_for_location_name, bind, emit.
  now rewrite H.
Qed.

Lemma geocoder_known (E : env) (name : string) (first : json)
  (others : list json) (pos lat lng : json) (w : world) :
  free_form E name = Ok (first :: others) ->
  getitem first "position" = Ok pos ->
  getitem pos "lat" = Ok lat -> getitem pos "lng" = Ok lng ->
  _get_coordinates_for_location_name E name w
  = (Done (coordinates (lat, lng)), after_geocode name w).
Proof.
  intros H Hp Hlat Hlng. unfold _get_coordinates_for_location_name, bind, emit.
  rewrite H. unfold index. simpl. rewrite Hp. simpl. rewrite Hlat. simpl.
  now rewrite Hlng.
Qed.

Lemma for_each_io_app {A S} (body : S -> A -> M S) (xs ys : list A)
  (acc : S) (w : world) :
  for_each_io body (xs ++ ys) acc w
  = bind (for_each_io body xs acc) (for_each_io body ys) w.
Proof.
  revert acc w; induction xs as [|x xs IH]; intros acc w; simpl.
  - reflexivity.
  - unfold bind. destruct (body acc x w) as [[acc'|e|] w1];
      [|reflexivity..].
    rewrite IH. unfold bind. reflexivity.
Qed.

Lemma waypoint_step_resolved (E : env) (point : json) (p : json * json)
  (acc : list json) (w : world) :
  resolves E point p ->
  waypoint_step E acc point w
  = (Done (acc ++ [lat_lng p])%list, after_lookups (names_in [point]) w).
Proof.
  intros [[more ->] | [name [first [others [pos [-> [Hf [Hp [Hlat Hlng]]]]]]]]].
  - unfold waypoint_step, bind, ret, lift, after_lookups. simpl.
    rewrite app_nil_r, world_eta. reflexivity.
  - unfold waypoint_step. unfold bind at 1. cbn [resolve_waypoint].
    rewrite (geocoder_known _ _ _ _ _ _ _ _ Hf Hp Hlat Hlng).
    reflexivity.
Qed.

(** Waypoints that resolve become their objects, in order, after the
    lookups of the names among them. *)
Lemma waypoint_loop_resolved (E : env) (points : list json)
  (ps : list (json * json)) (acc : list json) (w : world) :
  Forall2 (resolves E) points ps ->
  for_each_io (waypoint_step E) points acc w
  = (Done (acc ++ map lat_lng ps)%list, after_lookups (names_in points) w).
Proof.
  intros H. revert acc w.
  induction H as [|point p points ps Hp _ IH]; intros acc w.
  - simpl. unfold ret, after_lookups. simpl.
    now rewrite !app_nil_r, world_eta.
  - cbn [for_each_io]. unfold bind.
    rewrite (waypoint_step_resolved _ _ _ _ _ Hp), IH.
    rewrite <- app_assoc. f_equal.
    unfold after_lookups. simpl.
    destruct point; simpl; rewrite <- ?app_assoc, ?app_nil_r; reflexivity.
Qed.

Lemma waypoint_loop_unknown (E : env) (pre : list json)
  (ps : list (json * json)) (name : string) (more : list json)
  (c : here_class) (msg : json) (acc : list json) (w : world) :
  Forall2 (resolves E) pre ps ->
  free_form E name = Raise (Here c msg) ->
  for_each_io (waypoint_step E) (pre ++ JStr name :: more) acc w
  = (Raised (Here WaypointNotFoundError msg),
     after_lookups (names_in pre ++ [name]) w).
Proof.
  intros Hpre H. rewrite for_each_io_app. unfold bind at 1.
  rewrite (waypoint_loop_resolved _ _ _ _ _ Hpre).
  cbn [for_each_io]. unfold bind at 1. unfold waypoint_step at 1.
  unfold bind at 1. cbn [resolve_waypoint].
  rewrite (geocoder_unknown _ _ _ _ _ H).
  unfold after_geocode, after_lookups. simpl.
  now rewrite map_app, app_assoc.
Qed.

(** X19: when the geocoder does not know a name among the origins, or among
    the destinations, and every waypoint before that name resolves (it is
    a list of coordinates or a name the geocoder knows), both matrix calls
    raise [WaypointNotFoundError] with the geocoder's message at that
    lookup; the names before it have been looked up, in order, and no
    request is sent.  The center has two coordinates. *)
Theorem matrix_unknown_place
  (E : env) (caller : string) (pre : list json) (ps : list (json * json))
  (name : string) (more others origins : list json) (os : list (json * json))
  (cls0 : here_class) (msg : json)
  (matrix_type : enum_member) (c : json * json) (radius : json)
  (profile : option enum_member) (departure : option string)
  (routing_mode transport_mode : option enum_member)
  (matrix_attributes : option (list enum_member)) (w : world) :
  Forall2 (resolves E) pre ps ->
  free_form E name = Raise (Here cls0 msg) ->
  sync_matrix E caller (pre ++ JStr name :: more) others
    matrix_type (coordinates c) radius profile departure routing_mode
    transport_mode matrix_attributes w
  = (Raised (Here WaypointNotFoundError msg),
     after_lookups (names_in pre ++ [name]) w) /\
  async_matrix E caller (pre ++ JStr name :: more) others
    matrix_type (coordinates c) radius profile departure routing_mode
    transport_mode matrix_attributes w
  = (Raised (Here WaypointNotFoundError msg),
     after_lookups (names_in pre ++ [name]) w) /\
  (Forall2 (resolves E) origins os ->
   sync_matrix E caller origins (pre ++ JStr name :: more)
     matrix_type (coordinates c) radius profile departure routing_mode
     transport_mode matrix_attributes w
   = (Raised (Here WaypointNotFoundError msg),
      after_lookups (names_in origins ++ names_in pre ++ [name]) w) /\
   async_matrix E caller origins (pre ++ JStr name :: more)
     matrix_type (coordinates c) radius profile departure routing_mode
     transport_mode matrix_attributes w
   = (Raised (Here WaypointNotFoundError msg),
      after_lookups (names_in origins ++ names_in pre ++ [name]) w)).
Proof.
  intros Hpre H.
  destruct (matrix_request_body_ok matrix_type c radius profile departure
              routing_mode transport_mode matrix_attributes) as [body0 Hb].
  assert (Hw : forall o,
             after_lookups (names_in pre ++ [name]) (after_lookups o w)
             = after_lookups (o ++ names_in pre ++ [name]) w).
  { intros o. unfold after_lookups. simpl.
    now rewrite (map_app EvGeocode o), app_assoc. }
  split; [|split].
  - unfold sync_matrix. rewrite Hb. unfold bind at 1. unfold lift at 1.
    unfold ret at 1. unfold bind at 1.
    now rewrite (waypoint_loop_unknown _ _ _ _ _ _ _ _ _ Hpre H).
  - unfold async_matrix. rewrite Hb. unfold bind at 1. unfold lift at 1.
    unfold ret at 1. unfold bind at 1.
    now rewrite (waypoint_loop_unknown _ _ _ _ _ _ _ _ _ Hpre H).
  - intros Ho. split.
    + unfold sync_matrix. rewrite Hb. unfold bind at 1. unfold lift at 1.
      unfold ret at 1. unfold bind at 1.
      rewrite (waypoint_loop_resolved _ _ _ _ _ Ho). unfold bind at 1.
      rewrite (waypoint_loop_unknown _ _ _ _ _ _ _ _ _ Hpre H), Hw. reflexivity.
    + unfold async_matrix. rewrite Hb. unfold bind at 1. unfold lift at 1.
      unfold ret at 1. unfold bind at 1.
      rewrite (waypoint_loop_resolved _ _ _ _ _ Ho). unfold bind at 1.
      now rewrite (waypoint_loop_unknown _ _ _ _ _ _ _ _ _ Hpre H), Hw.
Qed.

(** Berlin is known, Atlantis is not: two lookups, then the error. *)
Lemma matrix_unknown_place_witness :
  Forall2 (resolves demo_env)
    [JStr "Berlin"; coordinates (JInt 1, JInt 2)]
    [(JFloat 52.5%float, JFloat 13.5%float); (JInt 1, JInt 2)] /\
  sync_matrix demo_env "main"
    ([JStr "Berlin"; coordinates (JInt 1, JInt 2)] ++ JStr "Atlantis" :: [])
    [coordinates (JInt 3, JInt 4)]
    (mk_enum_member "circle") (coordinates (JInt 0, JInt 0)) (JInt 10000)
    None None None None None empty_world
  = (Raised (Here WaypointNotFoundError (JStr "no such place")),
     mk_world [EvGeocode "Berlin"; EvGeocode "Atlantis"] [] []).
Proof.
  assert (Hpre : Forall2 (resolves demo_env)
                   [JStr "Berlin"; coordinates (JInt 1, JInt 2)]
                   [(JFloat 52.5%float, JFloat 13.5%float);
                    (JInt 1, JInt 2)]).
  { constructor; [|constructor; [|constructor]].
    - right. do 4 eexists. repeat split; reflexivity.
    - left. now exists []. }
  split; [exact Hpre|].
  destruct (matrix_unknown_place demo_env "main"
              [JStr "Berlin"; coordinates (JInt 1, JInt 2)]
              [(JFloat 52.5%float, JFloat 13.5%float); (JInt 1, JInt 2)]
              "Atlantis" [] [coordinates (JInt 3, JInt 4)] [] []
              HEREError (JStr "no such place")
              (mk_enum_member "circle") (JInt 0, JInt 0) (JInt 10000)
              None None None None None empty_world Hpre eq_refl)
    as [H _].
  exact H.
Defined.

(** X20: a route request for a place the geocoder knows is the request for
    the coordinates of the first item found, after the lookup; for a place
    it does not know the request raises [WaypointNotFoundError] and nothing
    is sent. *)
Theorem route_by_name (E : env) (name : string) (waypoint_b : json)
  (modes : option (list RouteMode)) (departure arrival : option time_arg)
  (w : world) :
  (forall first others pos lat lng,
      free_form E name = Ok (first :: others) ->
      getitem first "position" = Ok pos ->
      getitem pos "lat" = Ok lat -> getitem pos "lng" = Ok lng ->
      _route E (JStr name) waypoint_b modes departure arrival w
      = _route E (coordinates (lat, lng)) waypoint_b modes departure arrival
          (after_geocode name w)) /\
  (forall c msg,
      free_form E name = Raise (Here c msg) ->
      _route E (JStr name) waypoint_b modes departure arrival w
      = (Raised (Here WaypointNotFoundError msg), after_geocode name w)).
Proof.
  split.
  - intros first others pos lat lng H Hp Hlat Hlng.
    unfold _route. unfold bind at 1. cbn [resolve_waypoint].
    rewrite (geocoder_known _ _ _ _ _ _ _ _ H Hp Hlat Hlng).
    unfold bind at 3. reflexivity.
  - intros c msg H. unfold _route. unfold bind at 1. cbn [resolve_waypoint].
    now rewrite (geocoder_unknown _ _ _ _ _ H).
Qed.

(** ** The matrix request body, continued *)

(** X21: the body both matrix calls start from has the region definition
    first and then, in this order, [profile], [departureTime],
    [routingMode], [transportMode] and [matrixAttributes], each only when
    its argument is given and, for the departure and the attribute list,
    not empty; the attributes are joined with commas.  A center with fewer
    than two coordinates raises [IndexError] in both calls before anything
    is looked up or sent. *)
Theorem matrix_request_body_form
  (matrix_type : enum_member) (c : json * json) (radius : json)
  (profile : option enum_member) (departure : option string)
  (routing_mode transport_mode : option enum_member)
  (matrix_attributes : option (list enum_member)) :
  matrix_request_body matrix_type (coordinates c) radius profile departure
    routing_mode transport_mode matrix_attributes
  = Ok (("regionDefinition",
         JObj [("type", JStr (enum_str matrix_type));
               ("center", lat_lng c); ("radius", radius)])
        :: setting "profile" (option_map enum_str profile)
        ++ setting "departureTime" (non_empty departure)
        ++ setting "routingMode" (option_map enum_str routing_mode)
        ++ setting "transportMode" (option_map enum_str transport_mode)
        ++ setting "matrixAttributes" (joined_attributes matrix_attributes))%list
  /\
  (forall E caller origins destinations w center,
      center = JArr [] \/ (exists x, center = JArr [x]) ->
      sync_matrix E caller origins destinations matrix_type center radius
        profile departure routing_mode transport_mode matrix_attributes w
      = (Raised IndexError, w) /\
      async_matrix E caller origins destinations matrix_type center radius
        profile departure routing_mode transport_mode matrix_attributes w
      = (Raised IndexError, w)).
Proof.
  split.
  - unfold matrix_request_body, coordinates, lat_lng, non_empty. cbn [getindex index nth_error ebind fst snd].
    destruct profile, departure as [d|], routing_mode, transport_mode,
      matrix_attributes as [[|a rest]|];
      try destruct (String.eqb d EmptyString); reflexivity.
  - intros E caller origins destinations w center [-> | [x ->]];
      split; reflexivity.
Qed.

(** ** What a span is *)

Lemma append_inj_length (a b x y : string) :
  a ++ x = b ++ y -> String.length a = String.length b -> a = b /\ x = y.
Proof.
  revert b; induction a as [|c a IH]; intros [|d b] H Hl; simpl in *;
    try discriminate.
  - now split.
  - inversion H; subst. destruct (IH b) as [-> ->]; [assumption|lia|].
    now split.
Qed.

Lemma partition_of_leftmost (sep i pre rest0 : string) :
  i = pre ++ sep ++ rest0 ->
  (forall b' a', i = b' ++ sep ++ a' -> String.length pre <= String.length b') ->
  PyStr.partition sep i = Some (pre, rest0).
Proof.
  intros Hi Hleft.
  destruct (PyStr.partition sep i) as [[b a]|] eqn:Hp.
  - pose proof (partition_Some _ _ _ _ Hp) as Hb.
    pose proof (partition_leftmost _ _ _ _ Hp pre rest0 Hi) as Hle.
    pose proof (Hleft b a Hb) as Hge.
    rewrite Hi in Hb.
    destruct (append_inj_length _ _ _ _ Hb) as [<- Hr]; [lia|].
    destruct (append_inj_length _ _ _ _ Hr eq_refl) as [_ <-]. reflexivity.
  - exfalso. apply (partition_None _ _ Hp). now exists pre, rest0.
Qed.

Lemma partition_skip_clean (c0 : ascii) (sep' inner t : string) :
  has_char c0 inner = false ->
  PyStr.partition (String c0 sep') (inner ++ t)
  = match PyStr.partition (String c0 sep') t with
    | Some (b, a) => Some (inner ++ b, a)
    | None => None
    end.
Proof.
  induction inner as [|x inner IH]; intros H; simpl in H.
  - simpl. now destruct (PyStr.partition (String c0 sep') t) as [[b a]|].
  - apply orb_false_iff in H. destruct H as [Hx Hin].
    change (String x inner ++ t) with (String x (inner ++ t)).
    rewrite partition_unfold. cbn [PyStr.strip_prefix].
    rewrite Ascii.eqb_sym, Hx, (IH Hin).
    now destruct (PyStr.partition (String c0 sep') t) as [[b a]|].
Qed.

Lemma partition_at_start (sep t : string) :
  PyStr.partition sep (sep ++ t) = Some (EmptyString, t).
Proof.
  rewrite partition_unfold.
  now rewrite (proj2 (strip_prefix_Some sep (sep ++ t) t) eq_refl).
Qed.

Lemma first_piece_clean (c0 : ascii) (sep' inner t : string) :
  has_char c0 inner = false ->
  first_piece (String c0 sep') (inner ++ String c0 sep' ++ t) = inner.
Proof.
  intros H. unfold first_piece.
  rewrite (partition_skip_clean _ _ _ _ H), partition_at_start.
  apply append_empty_r.
Qed.

Lemma partition_after_close (sep'' rest : string) :
  PyStr.partition (String langle (String "s"%char sep'')) (span_close ++ rest)
  = match PyStr.partition (String langle (String "s"%char sep'')) rest with
    | Some (b, a) => Some (span_close ++ b, a)
    | None => None
    end.
Proof.
  unfold span_close.
  change ("</span>" ++ rest) with (String langle (String "/"%char ("span>" ++ rest))).
  rewrite partition_unfold. cbn [PyStr.strip_prefix].
  rewrite Ascii.eqb_refl.
  change (Ascii.eqb "s"%char "/"%char) with false. cbv iota.
  change (String "/"%char ("span>" ++ rest)) with ("/span>" ++ rest).
  rewrite partition_skip_clean by reflexivity.
  now destruct (PyStr.partition (String langle (String "s"%char sep'')) rest)
    as [[b a]|].
Qed.

Lemma tags_start_alike (tag : string) :
  tag = number_open \/ tag = street_open ->
  exists sep'', tag = String langle (String "s"%char sep'').
Proof. intros [-> | ->]; eexists; reflexivity. Qed.

(** The span of a tag, when the instruction is well formed around it. *)
Lemma span_text_between (tag i pre inner rest : string) :
  tag = number_open \/ tag = street_open ->
  i = pre ++ tag ++ inner ++ span_close ++ rest ->
  (forall b' a', i = b' ++ tag ++ a' -> String.length pre <= String.length b') ->
  has_char langle inner = false ->
  span_text tag i = Some (strip_parens inner).
Proof.
  intros Htag Hi Hleft Hin. unfold span_text.
  rewrite (partition_of_leftmost _ _ _ _ Hi Hleft).
  destruct (tags_start_alike _ Htag) as [sep'' Hs].
  do 2 f_equal. unfold first_piece at 2. rewrite Hs.
  rewrite (partition_skip_clean _ _ _ _ Hin), partition_after_close.
  unfold span_close.
  destruct (PyStr.partition (String langle (String "s"%char sep'')) rest)
    as [[b a]|].
  - rewrite <- append_assoc.
    change ("</span>" ++ b) with (String langle "/span>" ++ b).
    rewrite append_assoc. now apply first_piece_clean.
  - now apply (first_piece_clean langle "/span>").
Qed.

(** X22: in an instruction where the leftmost opening tag of a class is
    followed by a text without the character that opens a tag and then by
    the closing tag, the summarizers extract exactly that text, with its
    parentheses deleted; what comes after the closing tag plays no part. *)
Theorem span_is_text_between_tags (tag i pre inner rest : string) :
  tag = number_open \/ tag = street_open ->
  i = pre ++ tag ++ inner ++ span_close ++ rest ->
  (forall b' a', i = b' ++ tag ++ a' -> String.length pre <= String.length b') ->
  has_char langle inner = false ->
  span_after tag i = Ok (remove_char rparen (remove_char lparen inner)).
Proof.
  intros Htag Hi Hleft Hin.
  rewrite span_after_text
    by (destruct Htag as [-> | ->]; discriminate).
  rewrite (span_text_between _ _ _ _ _ Htag Hi Hleft Hin).
  now rewrite strip_parens_remove.
Qed.

Lemma span_is_text_between_tags_witness :
  has_char langle "(Main St)" = false /\
  span_after street_open instr_number_street = Ok "Main St".
Proof.
  split; [reflexivity|].
  exact (span_is_text_between_tags street_open instr_number_street
           ("Take " ++ number_open ++ "A1</span> to ") "(Main St)" "."
           (or_intror eq_refl) eq_refl
           (partition_leftmost street_open instr_number_street
              ("Take " ++ number_open ++ "A1</span> to ") _ eq_refl)
           eq_refl).
Defined.

(** ** The size of a summary *)

Lemma length_dedup_from (prev : option string) (l : list string) :
  length (dedup_from prev l) <= length l.
Proof.
  revert prev; induction l as [|x l IH]; intros prev; simpl; [lia|].
  destruct prev as [p|]; [destruct (String.eqb p x)|];
    simpl; try (specialize (IH (Some x)); lia).
  specialize (IH (Some p)); lia.
Qed.

Lemma length_entries (entry : string -> option string)
  (instrs : list string) :
  length (entries entry instrs) <= length instrs.
Proof.
  induction instrs as [|i instrs IH]; simpl; [lia|].
  destruct (entry i); simpl; lia.
Qed.

(** X23: a maneuver summary never has more entries than the maneuver has
    steps, and it has exactly as many as there are steps with a span when
    no two neighbouring entries are equal. *)
Theorem summary_size (maneuver : list json) (instrs : list string) :
  Forall2 has_instruction maneuver instrs ->
  exists vehicle_names non_vehicle_names,
    vehicle_road_names maneuver = Ok vehicle_names /\
    non_vehicle_road_names maneuver = Ok non_vehicle_names /\
    length vehicle_names <= length maneuver /\
    length non_vehicle_names <= length maneuver /\
    (no_adjacent_equal (entries vehicle_entry instrs) ->
     length vehicle_names = length (entries vehicle_entry instrs)) /\
    (no_adjacent_equal (entries non_vehicle_entry instrs) ->
     length non_vehicle_names = length (entries non_vehicle_entry instrs)).
Proof.
  intros H. do 2 eexists.
  split; [exact (vehicle_road_names_entries _ _ H)|].
  split; [exact (non_vehicle_road_names_entries _ _ H)|].
  pose proof (Forall2_length H) as Hlen. unfold dedup_adjacent.
  repeat split.
  - pose proof (length_dedup_from None (entries vehicle_entry instrs)).
    pose proof (length_entries vehicle_entry instrs). lia.
  - pose proof (length_dedup_from None (entries non_vehicle_entry instrs)).
    pose proof (length_entries non_vehicle_entry instrs). lia.
  - intros Hn. now rewrite dedup_from_fixed
      by (now apply no_equal_adjacent_distinct).
  - intros Hn. now rewrite dedup_from_fixed
      by (now apply no_equal_adjacent_distinct).
Qed.

Lemma summary_size_witness :
  Forall2 has_instruction
    (map step_of [instr_number "A1"; instr_number "A1"; instr_plain])
    [instr_number "A1"; instr_number "A1"; instr_plain] /\
  exists names,
    vehicle_road_names
      (map step_of [instr_number "A1"; instr_number "A1"; instr_plain])
    = Ok names /\
    length names <= 3.
Proof.
  split; [apply steps_have_instructions|].
  destruct (summary_size _ _ (steps_have_instructions
                                [instr_number "A1"; instr_number "A1";
                                 instr_plain]))
    as [v [n [Hv [_ [Hl _]]]]].
  exists v. split; [exact Hv|exact Hl].
Defined.

(** ** Steps with and without the opening tag *)

Lemma partition_absent (sep s : string) :
  ~ PyStr.occurs sep s -> PyStr.partition sep s = None.
Proof.
  intros H. destruct (PyStr.partition sep s) as [[b a]|] eqn:Hp;
    [|reflexivity].
  exfalso. apply H. exists b, a. now apply partition_Some.
Qed.

Lemma first_piece_absent (sep s : string) :
  ~ PyStr.occurs sep s -> first_piece sep s = s.
Proof. intros H. unfold first_piece. now rewrite (partition_absent _ _ H). Qed.

(** The span of a tag that is never closed and not opened again: the
    rest of the instruction. *)
Lemma span_text_unclosed (tag i pre rest : string) :
  i = pre ++ tag ++ rest ->
  (forall b' a', i = b' ++ tag ++ a' -> String.length pre <= String.length b') ->
  ~ PyStr.occurs span_close rest ->
  ~ PyStr.occurs tag rest ->
  span_text tag i = Some (strip_parens rest).
Proof.
  intros Hi Hleft Hclose Htag. unfold span_text.
  rewrite (partition_of_leftmost _ _ _ _ Hi Hleft).
  now rewrite (first_piece_absent _ _ Htag), (first_piece_absent _ _ Hclose).
Qed.

(** C8, as the code has it.  A step whose instruction lacks the opening tag
    the summarizer looks for raises nothing and contributes nothing.  A
    step whose instruction has that tag always contributes a candidate
    entry, closed span or not: when neither the closing tag nor the same
    opening tag occurs after the leftmost opening tag, the span is the
    rest of the instruction, without its parentheses.  No list of steps
    with instruction strings makes a maneuver summarizer raise, and every
    summarizer returns the empty string on the empty list. *)
Theorem step_without_opening_tag_omitted (step : json) (i : string) :
  has_instruction step i ->
  (~ PyStr.occurs number_open i ->
   (forall names, vehicle_step names step = Ok names) /\
   (forall pre post,
       _get_route_from_vehicle_maneuver (pre ++ step :: post)
       = _get_route_from_vehicle_maneuver (pre ++ post))) /\
  (~ PyStr.occurs street_open i ->
   (forall names, non_vehicle_step names step = Ok names) /\
   (forall pre post,
       _get_route_from_non_vehicle_maneuver (pre ++ step :: post)
       = _get_route_from_non_vehicle_maneuver (pre ++ post))) /\
  (PyStr.occurs number_open i ->
   exists e,
     vehicle_entry i = Some e /\
     forall names, vehicle_step names step = Ok (append_if_new names e)) /\
  (PyStr.occurs street_open i ->
   exists e,
     non_vehicle_entry i = Some e /\
     forall names, non_vehicle_step names step = Ok (append_if_new names e)) /\
  (forall tag pre rest,
      tag = number_open \/ tag = street_open ->
      i = pre ++ tag ++ rest ->
      (forall b' a',
          i = b' ++ tag ++ a' -> String.length pre <= String.length b') ->
      ~ PyStr.occurs span_close rest ->
      ~ PyStr.occurs tag rest ->
      span_after tag i = Ok (strip_parens rest)) /\
  (forall maneuver instrs,
      Forall2 has_instruction maneuver instrs ->
      exists v n,
        _get_route_from_vehicle_maneuver maneuver = Ok v /\
        _get_route_from_non_vehicle_maneuver maneuver = Ok n) /\
  _get_route_from_vehicle_maneuver [] = Ok EmptyString /\
  _get_route_from_non_vehicle_maneuver [] = Ok EmptyString /\
  _get_route_from_public_transport_line [] = Ok EmptyString.
Proof.
  intros Hi.
  split; [|split; [|split; [|split; [|split; [|split]]]]].
  - intros Hn.
    assert (Hstep : forall names, vehicle_step names step = Ok names).
    { intros names. rewrite (vehicle_step_entry _ _ _ Hi).
      unfold vehicle_entry. now rewrite (span_text_absent _ _ Hn). }
    split; [exact Hstep|]. intros pre post.
    unfold _get_route_from_vehicle_maneuver, vehicle_road_names.
    now rewrite (for_each_skip _ _ Hstep).
  - intros Hn.
    assert (Hstep : forall names, non_vehicle_step names step = Ok names).
    { intros names. rewrite (non_vehicle_step_entry _ _ _ Hi).
      unfold non_vehicle_entry. now rewrite (span_text_absent _ _ Hn). }
    split; [exact Hstep|]. intros pre post.
    unfold _get_route_from_non_vehicle_maneuver, non_vehicle_road_names.
    now rewrite (for_each_skip _ _ Hstep).
  - intros Ho. apply span_text_occurs in Ho.
    assert (He : exists e, vehicle_entry i = Some e).
    { unfold vehicle_entry.
      destruct (span_text number_open i) as [n|]; [|congruence].
      destruct (span_text street_open i); eauto. }
    destruct He as [e He]. exists e. split; [exact He|].
    intros names. now rewrite (vehicle_step_entry _ _ _ Hi), He.
  - intros Ho. apply span_text_occurs in Ho.
    unfold non_vehicle_entry.
    destruct (span_text street_open i) as [e|] eqn:He; [|congruence].
    exists e. split; [reflexivity|].
    intros names. rewrite (non_vehicle_step_entry _ _ _ Hi).
    unfold non_vehicle_entry. now rewrite He.
  - intros tag pre rest Htag Hpre Hleft Hclose Hopen.
    rewrite span_after_text by (destruct Htag as [-> | ->]; discriminate).
    now rewrite (span_text_unclosed _ _ _ _ Hpre Hleft Hclose Hopen).
  - intros maneuver instrs H.
    unfold _get_route_from_vehicle_maneuver,
      _get_route_from_non_vehicle_maneuver.
    rewrite (vehicle_road_names_entries _ _ H),
      (non_vehicle_road_names_entries _ _ H).
    simpl. eauto.
  - repeat split.
Qed.

(** A step without markup between two numbered roads goes unnoticed; the
    span left open in [instr_unclosed] is the rest of the instruction. *)
Lemma step_without_opening_tag_omitted_witness :
  has_instruction (step_of instr_plain) instr_plain /\
  ~ PyStr.occurs number_open instr_plain /\
  _get_route_from_vehicle_maneuver
    [step_of (instr_number "A1"); step_of instr_plain;
     step_of (instr_number "B2")]
  = _get_route_from_vehicle_maneuver
      [step_of (instr_number "A1"); step_of (instr_number "B2")] /\
  has_instruction (step_of instr_unclosed) instr_unclosed /\
  span_after street_open instr_unclosed = Ok "Main St" /\
  _get_route_from_vehicle_maneuver [] = Ok EmptyString /\
  _get_route_from_non_vehicle_maneuver [] = Ok EmptyString /\
  _get_route_from_public_transport_line [] = Ok EmptyString.
Proof.
  assert (Hn : ~ PyStr.occurs number_open instr_plain)
    by (apply contains_false; vm_compute; reflexivity).
  split; [reflexivity|]. split; [exact Hn|].
  destruct (step_without_opening_tag_omitted (step_of instr_plain) _ eq_refl)
    as [Hv [_ [_ [_ [_ [_ H]]]]]].
  split; [destruct (Hv Hn) as [_ Hskip];
          exact (Hskip [step_of (instr_number "A1")]
                   [step_of (instr_number "B2")])|].
  split; [reflexivity|]. split; [|exact H].
  destruct (step_without_opening_tag_omitted (step_of instr_unclosed) _
              eq_refl) as [_ [_ [_ [_ [Hspan _]]]]].
  refine (Hspan street_open "Turn onto " "Main St" (or_intror eq_refl)
            eq_refl
            (partition_leftmost street_open instr_unclosed "Turn onto "
               "Main St" eq_refl) _ _).
  - apply contains_false; vm_compute; reflexivity.
  - apply contains_false; vm_compute; reflexivity.
Defined.

